(** * Expreva: the Pratt rule table and the tree-walking evaluator

    A shallow embedding of [src/rules.ts] (the lexer/parser rule table)
    and of the evaluator ([bindFunctionScope], [expandMacro],
    [evaluateExpression], [evaluate]), with the properties the
    specification states about them. *)

From Stdlib Require Import PrimFloat SpecFloat FloatOps.
From Stdlib Require Import ZArith Ascii String DecimalString.
From Stdlib Require Import FloatAxioms DecimalNat.
From stdpp Require Import base option list strings gmap.

#[local] Set Warnings "-register-all".

Local Open Scope string_scope.
Local Open Scope list_scope.

(** ** JavaScript numbers

    Numbers are IEEE 754 doubles. A decimal literal [digits * 10^scale]
    is converted with one correctly rounded division or multiplication
    on unbounded mantissas. *)

Module Num.

Definition nan : float := PrimFloat.nan.
Definition zero : float := PrimFloat.zero.

Definition is_nan (f : float) : bool := negb (PrimFloat.eqb f f).

(** [!x] for a number: [0], [-0] and [NaN] are falsy. *)
Definition falsy (f : float) : bool := PrimFloat.eqb f zero || is_nan f.

Definition is_digit (c : ascii) : bool :=
  let n := nat_of_ascii c in (48 <=? n)%nat && (n <=? 57)%nat.

Definition digit_val (c : ascii) : N := N.of_nat (nat_of_ascii c - 48).

Fixpoint digits_val (acc : N) (s : string) : N :=
  match s with
  | EmptyString => acc
  | String c s' => digits_val (acc * 10 + digit_val c) s'
  end.

(** The double nearest to [m * 10^scale]. *)
Definition of_decimal (neg : bool) (m : N) (scale : Z) : float :=
  match m with
  | N0 => if neg then PrimFloat.neg_zero else zero
  | Npos p =>
      let '(num, den) :=
        match scale with
        | Zneg k => (p, Pos.pow 10 k)
        | Z0 => (p, 1%positive)
        | Zpos k => ((p * Pos.pow 10 k)%positive, 1%positive)
        end in
      SF2Prim (SFdiv prec emax (S754_finite neg num 0) (S754_finite false den 0))
  end.

Definition of_nat (n : nat) : float := of_decimal false (N.of_nat n) 0.

End Num.

(** ** Character classes and regular-expression pieces of the rule table *)

Module Lex.

(** [\s], on the ASCII range. *)
Definition is_space (c : ascii) : bool :=
  match nat_of_ascii c with
  | 9 | 10 | 11 | 12 | 13 | 32 => true
  | _ => false
  end.

(** [[a-zA-Z0-9_]] *)
Definition is_word (c : ascii) : bool :=
  let n := nat_of_ascii c in
  ((97 <=? n)%nat && (n <=? 122)%nat) || ((65 <=? n)%nat && (n <=? 90)%nat)
  || Num.is_digit c || (n =? 95)%nat.

(** Greedy [c*]: the matched run and the rest. *)
Fixpoint span (p : ascii -> bool) (s : string) : string * string :=
  match s with
  | EmptyString => (EmptyString, EmptyString)
  | String c s' =>
      if p c then let '(a, b) := span p s' in (String c a, b)
      else (EmptyString, s)
  end.

Definition skip (p : ascii -> bool) (s : string) : string := snd (span p s).

Definition skip_ws : string -> string := skip is_space.

Fixpoint strip_prefix (lit s : string) : option string :=
  match lit, s with
  | EmptyString, _ => Some s
  | String a lit', String b s' =>
      if Ascii.eqb a b then strip_prefix lit' s' else None
  | String _ _, EmptyString => None
  end.

Definition nonempty (s : string) : bool :=
  match s with EmptyString => false | _ => true end.

Fixpoint take (n : nat) (s : string) : string :=
  match n, s with
  | S n', String c s' => String c (take n' s')
  | _, _ => EmptyString
  end.

(** A compiled pattern: anchored at the start, it returns the rest of
    the source after the whole match. *)
Definition Matcher := string -> option string.

(** [/^\s*(lit)\s*/] *)
Definition m_op (lit : string) : Matcher := fun s =>
  match strip_prefix lit (skip_ws s) with
  | Some r => Some (skip_ws r)
  | None => None
  end.

(** [/^\s*((\d+)?\.?\d+)\s*/]. With backtracking the match is the
    leading digits followed, when possible, by a dot and more digits. *)
Definition m_number : Matcher := fun s =>
  let '(d1, r1) := span Num.is_digit (skip_ws s) in
  let whole := if nonempty d1 then Some (skip_ws r1) else None in
  match r1 with
  | String "." r2 =>
      let '(d2, r3) := span Num.is_digit r2 in
      if nonempty d2 then Some (skip_ws r3) else whole
  | _ => whole
  end.

(** [/^\s*([a-zA-Z0-9_]+)\s*/] *)
Definition m_symbol : Matcher := fun s =>
  let '(w, r) := span is_word (skip_ws s) in
  if nonempty w then Some (skip_ws r) else None.

(** The body of a quoted string up to the closing quote [q]: runs of
    characters other than the quote and the backslash, and backslash
    escapes; the escaped character is not a line terminator. *)
Fixpoint quoted_body (q : ascii) (s : string) : option string :=
  match s with
  | EmptyString => None
  | String c s' =>
      if Ascii.eqb c q then Some s'
      else if Ascii.eqb c "\" then
        match s' with
        | String e s'' =>
            if Ascii.eqb e "010" || Ascii.eqb e "013" then None
            else quoted_body q s''
        | EmptyString => None
        end
      else quoted_body q s'
  end.

(** The two quoted-string patterns: white space, the opening quote, the
    body, the closing quote (no trailing white space is consumed). *)
Definition m_quoted (q : ascii) : Matcher := fun s =>
  match skip_ws s with
  | String c r => if Ascii.eqb c q then quoted_body q r else None
  | EmptyString => None
  end.

(** [/^\s*;*\s*(\))\s*/] *)
Definition m_close : Matcher := fun s =>
  m_op ")" (skip (fun c => Ascii.eqb c ";") (skip_ws s)).

(** [/^\s*(;+)\s*/] *)
Definition m_end : Matcher := fun s =>
  let '(semis, r) := span (fun c => Ascii.eqb c ";") (skip_ws s) in
  if nonempty semis then Some (skip_ws r) else None.

(** [String.prototype.trim], ASCII white space. *)
Definition trim (s : string) : string :=
  String.rev (skip_ws (String.rev (skip_ws s))).

End Lex.

(** ** JavaScript run-time conversions used by the rule handlers *)

Module JsString.

Definition hex_val (c : ascii) : option N :=
  let n := nat_of_ascii c in
  if Num.is_digit c then Some (N.of_nat (n - 48))
  else if (97 <=? n)%nat && (n <=? 102)%nat then Some (N.of_nat (n - 87))
  else if (65 <=? n)%nat && (n <=? 70)%nat then Some (N.of_nat (n - 55))
  else None.

(** Digits in radix [r], the whole string. *)
Fixpoint radix_val (r : N) (acc : N) (s : string) : option N :=
  match s with
  | EmptyString => Some acc
  | String c s' =>
      match hex_val c with
      | Some d => if (d <? r)%N then radix_val r (acc * r + d)%N s' else None
      | None => None
      end
  end.

(** [StrUnsignedDecimalLiteral], the whole string:
    digits, an optional fraction, an optional exponent. *)
Definition unsigned_decimal (neg : bool) (s : string) : option float :=
  let '(d1, r1) := Lex.span Num.is_digit s in
  let '(d2, r2) :=
    match r1 with
    | String "." r => Lex.span Num.is_digit r
    | _ => (EmptyString, r1)
    end in
  if negb (Lex.nonempty d1 || Lex.nonempty d2) then None
  else
    let m := Num.digits_val 0 (d1 +:+ d2) in
    let frac := Z.of_nat (String.length d2) in
    match r2 with
    | EmptyString => Some (Num.of_decimal neg m (- frac))
    | String e r3 =>
        if Ascii.eqb e "e" || Ascii.eqb e "E" then
          let '(eneg, r4) :=
            match r3 with
            | String "-" r => (true, r)
            | String "+" r => (false, r)
            | _ => (false, r3)
            end in
          let '(d3, r5) := Lex.span Num.is_digit r4 in
          if Lex.nonempty d3 && negb (Lex.nonempty r5) then
            let x := Z.of_N (Num.digits_val 0 d3) in
            Some (Num.of_decimal neg m ((if eneg then - x else x) - frac))
          else None
        else None
    end.

(** [StringToNumber]: the value of [Number(s)] (ASCII white space). *)
Definition to_number (s : string) : float :=
  let t := Lex.trim s in
  let radix (r : N) (digits : string) : float :=
    match digits with
    | EmptyString => Num.nan
    | _ => match radix_val r 0 digits with
           | Some m => Num.of_decimal false m 0
           | None => Num.nan
           end
    end in
  match t with
  | EmptyString => Num.zero
  | String "0" (String x r) =>
      if Ascii.eqb x "x" || Ascii.eqb x "X" then radix 16%N r
      else if Ascii.eqb x "o" || Ascii.eqb x "O" then radix 8%N r
      else if Ascii.eqb x "b" || Ascii.eqb x "B" then radix 2%N r
      else default Num.nan (unsigned_decimal false t)
  | _ =>
      let '(neg, body) :=
        match t with
        | String "-" r => (true, r)
        | String "+" r => (false, r)
        | _ => (false, t)
        end in
      if String.eqb body "Infinity"
      then (if neg then PrimFloat.neg_infinity else PrimFloat.infinity)
      else default Num.nan (unsigned_decimal neg body)
  end.

(** [parseFloat] on the lexeme of the number rule: white space, then
    digits with an optional fraction. *)
Definition parseFloat (s : string) : float :=
  let '(d1, r1) := Lex.span Num.is_digit (Lex.skip_ws s) in
  let d2 :=
    match r1 with
    | String "." r => fst (Lex.span Num.is_digit r)
    | _ => EmptyString
    end in
  if Lex.nonempty d1 || Lex.nonempty d2
  then Num.of_decimal false (Num.digits_val 0 (d1 +:+ d2))
                      (- Z.of_nat (String.length d2))
  else Num.nan.

(** [String.prototype.slice(1, -1)] *)
Definition slice_1_m1 (s : string) : string :=
  match s with
  | EmptyString => EmptyString
  | String _ r => Lex.take (String.length r - 1) r
  end.

(** UTF-8 bytes of a code unit below 0x10000. *)
Definition utf8 (n : N) : string :=
  let byte (k : N) := String (ascii_of_N k) EmptyString in
  if (n <? 128)%N then byte n
  else if (n <? 2048)%N
  then byte (192 + n / 64)%N +:+ byte (128 + n mod 64)%N
  else byte (224 + n / 4096)%N +:+ byte (128 + (n / 64) mod 64)%N
       +:+ byte (128 + n mod 64)%N.

(** The characters of a JSON string after its opening quote, up to and
    including the closing quote; [None] is a [SyntaxError]. *)
Fixpoint json_chars (s : string) : option (string * string) :=
  match s with
  | EmptyString => None
  | String c r =>
      if Ascii.eqb c "034" then Some (EmptyString, r)
      else if (nat_of_ascii c <? 32)%nat then None
      else if Ascii.eqb c "\" then
        match r with
        | String e r' =>
            let simple (x : ascii) :=
              match json_chars r' with
              | Some (t, rest) => Some (String x t, rest)
              | None => None
              end in
            if Ascii.eqb e "034" then simple "034"%char
            else if Ascii.eqb e "\" then simple "\"%char
            else if Ascii.eqb e "/" then simple "/"%char
            else if Ascii.eqb e "b" then simple "008"%char
            else if Ascii.eqb e "f" then simple "012"%char
            else if Ascii.eqb e "n" then simple "010"%char
            else if Ascii.eqb e "r" then simple "013"%char
            else if Ascii.eqb e "t" then simple "009"%char
            else if Ascii.eqb e "u" then
              match r' with
              | String h1 (String h2 (String h3 (String h4 r''))) =>
                  match radix_val 16 0 (String h1 (String h2 (String h3 (String h4 EmptyString)))),
                        json_chars r'' with
                  | Some n, Some (t, rest) => Some (utf8 n +:+ t, rest)
                  | _, _ => None
                  end
              | _ => None
              end
            else None
        | EmptyString => None
        end
      else
        match json_chars r with
        | Some (t, rest) => Some (String c t, rest)
        | None => None
        end
  end.

(** JSON white space: space, tab, line feed, carriage return. *)
Definition is_json_ws (c : ascii) : bool :=
  match nat_of_ascii c with 9 | 10 | 13 | 32 => true | _ => false end.

(** [JSON.parse] on a text that is expected to be one string literal. *)
Definition json_parse_string (s : string) : option string :=
  match Lex.skip is_json_ws s with
  | String c r =>
      if Ascii.eqb c "034" then
        match json_chars r with
        | Some (t, rest) =>
            if Lex.nonempty (Lex.skip is_json_ws rest) then None else Some t
        | None => None
        end
      else None
  | EmptyString => None
  end.

End JsString.

(** ** The syntax tree the parser builds ([Expression] of the source) *)

Inductive Expr : Type :=
| ENum (f : float)
| EStr (s : string)
| EUndef
| EList (l : list Expr).

Module Ast.

(** [x == null] *)
Definition is_null (e : Expr) : bool :=
  match e with EUndef => true | _ => false end.

(** [x === 'lit'] *)
Definition is_str (e : Expr) (lit : string) : bool :=
  match e with EStr s => String.eqb s lit | _ => false end.

(** [x[0] === 'lit'] for a list [x] *)
Definition head_is (e : Expr) (lit : string) : bool :=
  match e with
  | EList (h :: _) => is_str h lit
  | _ => false
  end.

(** Truthiness of an expression value. *)
Definition truthy (e : Expr) : bool :=
  match e with
  | ENum f => negb (Num.falsy f)
  | EStr s => Lex.nonempty s
  | EUndef => false
  | EList _ => true
  end.

(** [Number(String(x))] for a value that is first rendered as text, as
    the elements of an array are: [undefined] renders as the empty
    string, a number renders as a literal that reads back as itself
    (with [-0] printed as [0]), and an array renders as its elements
    joined by commas, which no numeric literal contains. *)
Fixpoint number_of_text (e : Expr) : float :=
  match e with
  | ENum f => if PrimFloat.eqb f Num.zero then Num.zero else f
  | EStr s => JsString.to_number s
  | EUndef => Num.zero
  | EList nil => Num.zero
  | EList (x :: nil) => number_of_text x
  | EList _ => Num.nan
  end.

(** [ToNumber], the coercion applied by the unary minus. *)
Definition to_number (e : Expr) : float :=
  match e with
  | ENum f => f
  | EStr s => JsString.to_number s
  | EUndef => Num.nan
  | EList _ => number_of_text e
  end.

End Ast.

(** ** Rule handlers

    A handler of the rule table is a small program over the parser: it
    asks for the next expression at some binding power, any number of
    times, and returns a tree (or throws, when [JSON.parse] does). *)

Inductive Parse : Type :=
| PRet (e : Expr)
| PFail
| PNext (rbp : nat) (k : Expr -> Parse).

Record Rule : Type := mkRule {
  r_name : string;
  r_match : Lex.Matcher;
  r_power : nat;
  r_prefix : option (string -> Parse);
  r_infix : option (Expr -> Parse)
}.

(** A token is the rule that matched with the matched text ([this.value]). *)
Record Token : Type := mkToken { t_rule : Rule; t_value : string }.

Module Rules.

(** Modelled from the spec: [Parser.isArgumentList] is not in the
    sources at hand; the comma collects a parenthesized list into an
    argument marker, the list headed by ['args..'] that the comma
    and lambda rules build. *)
Definition isArgumentList (e : Expr) : bool := Ast.head_is e "args..".

(** [push] on a list value. *)
Definition push (e x : Expr) : Expr :=
  match e with
  | EList l => EList (l ++ [x])
  | _ => e
  end.

(** [prefix() {}] and [infix() {}] *)
Definition nothing_prefix : string -> Parse := fun _ => PRet EUndef.
Definition nothing_infix : Expr -> Parse := fun _ => PRet EUndef.

(** The body shared by the binary operators:
    [const right = parser.nextExpression(this.power); return [op, left, right]] *)
Definition binary (op : string) (power : nat) : Expr -> Parse := fun left =>
  PNext power (fun right => PRet (EList [EStr op; left; right])).

Definition number : Rule :=
  mkRule "number" Lex.m_number 0
    (Some (fun value => PRet (ENum (JsString.parseFloat value))))
    None.

Definition if_ : Rule :=
  mkRule "if" (Lex.m_op "if") 20
    (Some (fun _ =>
       PNext 20 (fun condition =>
       PNext 20 (fun trueBranch =>
       let after_then (trueBranch : Expr) :=
         PNext 20 (fun falseBranch =>
         if Ast.is_str falseBranch "else"
         then PNext 20 (fun falseBranch =>
              PRet (EList [EStr "if"; condition; trueBranch; falseBranch]))
         else PRet (EList [EStr "if"; condition; trueBranch; falseBranch])) in
       if Ast.is_str trueBranch "then"
       then PNext 20 after_then
       else after_then trueBranch))))
    (Some (fun left => PRet left)).

Definition or_ : Rule :=
  mkRule "or" (Lex.m_op "or") 30 (Some nothing_prefix) (Some (binary "||" 30)).

Definition and_ : Rule :=
  mkRule "and" (Lex.m_op "and") 30 (Some nothing_prefix) (Some (binary "&&" 30)).

Definition not_ : Rule :=
  mkRule "not" (Lex.m_op "not") 70
    (Some (fun _ => PNext 0 (fun e => PRet (EList [EStr "!"; e]))))
    (Some nothing_infix).

Definition symbol : Rule :=
  mkRule "symbol" Lex.m_symbol 0
    (Some (fun value => PRet (EStr (Lex.trim value))))
    None.

Definition single_quoted : Rule :=
  mkRule "single-quoted string" (Lex.m_quoted "'") 0
    (Some (fun value =>
       match JsString.json_parse_string
               (String "034" (JsString.slice_1_m1 value) +:+ String "034" EmptyString) with
       | Some s => PRet (EList [EStr "`"; EStr s])
       | None => PFail
       end))
    None.

Definition double_quoted : Rule :=
  mkRule "double-quoted string" (Lex.m_quoted "034") 0
    (Some (fun value =>
       match JsString.json_parse_string value with
       | Some s => PRet (EList [EStr "`"; EStr s])
       | None => PFail
       end))
    None.

Definition close_expression : Rule :=
  mkRule "close expression" Lex.m_close 0
    (Some nothing_prefix) (Some nothing_infix).

Definition end_statement : Rule :=
  mkRule "end statement" Lex.m_end 0
    (Some nothing_prefix)
    (Some (fun left =>
       PNext 0 (fun right =>
       if Ast.is_null right then PRet left
       else PRet (EList [left; EStr ";"; right])))).

Definition argument_separator : Rule :=
  mkRule "argument separator" (Lex.m_op ",") 5
    (Some nothing_prefix)
    (Some (fun left =>
       PNext 70 (fun right =>
       let args :=
         if isArgumentList left then left
         else if negb (Ast.is_null left) then EList [EStr "args.."; left]
         else EList [EStr "args.."] in
       PRet (if negb (Ast.is_null right) then push args right else args)))).

Definition apply_ : Rule :=
  mkRule "->" (Lex.m_op "->") 60
    (Some nothing_prefix)
    (Some (fun left =>
       PNext 60 (fun right =>
       if Ast.is_null left then PRet right
       else PRet (EList [right; left])))).

Definition lambda : Rule :=
  mkRule "lambda" (Lex.m_op "=>") 70
    (Some nothing_prefix)
    (Some (fun left =>
       let left := if negb (isArgumentList left)
                   then EList [EStr "args.."; left] else left in
       PNext 0 (fun right => PRet (EList [EStr "lambda"; left; right])))).

Definition question : Rule :=
  mkRule "?" (Lex.m_op "?") 20
    (Some nothing_prefix)
    (Some (fun left =>
       PNext 20 (fun trueBranch =>
       PNext 20 (fun falseBranch =>
       PRet (EList [EStr "if"; left; trueBranch; falseBranch]))))).

Definition colon : Rule :=
  mkRule ":" (Lex.m_op ":") 0
    (Some (fun _ => PNext 0 (fun left => PRet left)))
    (Some (fun left =>
       PNext 0 (fun right =>
       if Ast.head_is left "if"
       then PRet (if Ast.truthy right then push left right else left)
       else PRet (EList [left; right])))).

Definition or_op : Rule :=
  mkRule "||" (Lex.m_op "||") 30 (Some nothing_prefix) (Some (binary "||" 30)).

Definition and_op : Rule :=
  mkRule "&&" (Lex.m_op "&&") 30 (Some nothing_prefix) (Some (binary "&&" 30)).

Definition eq_op : Rule :=
  mkRule "==" (Lex.m_op "==") 40 (Some nothing_prefix) (Some (binary "==" 40)).

Definition ne_op : Rule :=
  mkRule "!=" (Lex.m_op "!=") 40 (Some nothing_prefix) (Some (binary "!=" 40)).

Definition bang : Rule :=
  mkRule "!" (Lex.m_op "!") 70
    (Some (fun _ => PNext 0 (fun e => PRet (EList [EStr "!"; e]))))
    (Some nothing_infix).

Definition le_op : Rule :=
  mkRule "<=" (Lex.m_op "<=") 40 (Some nothing_prefix) (Some (binary "<=" 40)).

Definition lt_op : Rule :=
  mkRule "<" (Lex.m_op "<") 40 (Some nothing_prefix) (Some (binary "<" 40)).

Definition ge_op : Rule :=
  mkRule ">=" (Lex.m_op ">=") 40 (Some nothing_prefix) (Some (binary ">=" 40)).

Definition gt_op : Rule :=
  mkRule ">" (Lex.m_op ">") 40 (Some nothing_prefix) (Some (binary ">" 40)).

Definition set : Rule :=
  mkRule "set" (Lex.m_op "=") 10 (Some nothing_prefix) (Some (binary "set" 10)).

Definition plus : Rule :=
  mkRule "+" (Lex.m_op "+") 50
    (Some (fun _ => PNext 70 (fun e => PRet e)))
    (Some (binary "+" 50)).

Definition minus : Rule :=
  mkRule "-" (Lex.m_op "-") 50
    (Some (fun _ => PNext 70 (fun e => PRet (ENum (- Ast.to_number e)))))
    (Some (binary "-" 50)).

Definition times : Rule :=
  mkRule "*" (Lex.m_op "*") 60 None (Some (binary "*" 60)).

Definition divide : Rule :=
  mkRule "/" (Lex.m_op "/") 60 None (Some (binary "/" 60)).

Definition open_expression : Rule :=
  mkRule "open expression" (Lex.m_op "(") 80
    (Some (fun _ =>
       PNext 0 (fun expr =>
       PNext 80 (fun _ => PRet expr))))
    (Some (fun left =>
       PNext 0 (fun right =>
       PNext 80 (fun _ =>
       if Ast.is_null left then PRet right
       else PRet (EList [left; right]))))).

(** The exported table, in matching order. *)
Definition rules : list Rule :=
  [ number; if_; or_; and_; not_; symbol; single_quoted; double_quoted;
    close_expression; end_statement; argument_separator; apply_; lambda;
    question; colon; or_op; and_op; eq_op; ne_op; bang;
    le_op; lt_op; ge_op; gt_op; set; plus; minus; times; divide;
    open_expression ].

End Rules.

(** ** Lexer and Pratt parser *)

Inductive ParseResult : Type :=
| Parsed (e : Expr) (rest : list Token)
| ParseError
| ParseFuel.

Module Parser.

(** Modelled from the spec: the lexer is not in the sources at hand.
    The first rule of the ordered table whose pattern matches at the
    start of the source, with the rest of the source. *)
Fixpoint first_match (rs : list Rule) (src : string) : option (Rule * string) :=
  match rs with
  | [] => None
  | r :: rs' =>
      match r_match r src with
      | Some rest => Some (r, rest)
      | None => first_match rs' src
      end
  end.

(** Modelled from the spec: the lexer is not in the sources at hand. It
    walks the input left to right and takes the first rule of the
    ordered table whose pattern anchors at the current position; the
    token's value is the matched text; no rule matching before the end
    of the input is a lexing error. *)
Fixpoint tokenize_from (fuel : nat) (src : string) : option (list Token) :=
  match fuel with
  | O => None
  | S fuel' =>
      if negb (Lex.nonempty (Lex.skip_ws src)) then Some []
      else
        match first_match Rules.rules src with
        | Some (r, rest) =>
            let value := Lex.take (String.length src - String.length rest) src in
            match tokenize_from fuel' rest with
            | Some ts => Some (mkToken r value :: ts)
            | None => None
            end
        | None => None
        end
  end.

(** Modelled from the spec: the lexer's entry point; every token takes
    at least one character, so the length of the source bounds the
    walk. *)
Definition tokenize (src : string) : option (list Token) :=
  tokenize_from (S (String.length src)) src.

(** Modelled from the spec: the parser, which is not in the sources at
    hand, is what a handler of the rule table calls. This runs a
    handler, answering each of its requests with [next]. *)
Fixpoint run (next : nat -> list Token -> ParseResult) (p : Parse)
    (ts : list Token) : ParseResult :=
  match p with
  | PRet e => Parsed e ts
  | PFail => ParseError
  | PNext rbp k =>
      match next rbp ts with
      | Parsed e ts' => run next (k e) ts'
      | r => r
      end
  end.

(** Modelled from the spec: the loop of [Parser.nextExpression], which
    is not in the sources at hand. While the coming token's
    left-binding power exceeds [rbp], its infix handler takes the
    expression so far as its left operand. *)
Fixpoint infix_loop (next : nat -> list Token -> ParseResult) (fuel rbp : nat)
    (left : Expr) (ts : list Token) : ParseResult :=
  match ts with
  | [] => Parsed left []
  | t :: ts' =>
      if (rbp <? r_power (t_rule t))%nat then
        match fuel with
        | O => ParseFuel
        | S fuel' =>
            match r_infix (t_rule t) with
            | None => ParseError
            | Some h =>
                match run next (h left) ts' with
                | Parsed e ts'' => infix_loop next fuel' rbp e ts''
                | r => r
                end
            end
        end
      else Parsed left ts
  end.

(** Modelled from the spec: [Parser.nextExpression] is not in the
    sources at hand. It is the top-down operator precedence step the
    rule table is written for (each rule's power is its left-binding
    power, applied here): the current token's prefix handler gives the
    left expression, then infix handlers extend it while the coming
    token's power exceeds the given right-binding power. At the end of
    the input there is no expression (nil). A token whose rule has no
    handler for its position is a parse error. *)
Fixpoint nextExpression (fuel rbp : nat) (ts : list Token) : ParseResult :=
  match fuel with
  | O => ParseFuel
  | S fuel' =>
      match ts with
      | [] => Parsed EUndef []
      | t :: ts' =>
          match r_prefix (t_rule t) with
          | None => ParseError
          | Some h =>
              match run (nextExpression fuel') (h (t_value t)) ts' with
              | Parsed e ts'' =>
                  infix_loop (nextExpression fuel') fuel' rbp e ts''
              | r => r
              end
          end
      end
  end.

(** Modelled from the spec: one expression at binding power 0, with
    fuel for every token to open a nested call and to turn the loop. *)
Definition parse_tokens (ts : list Token) : ParseResult :=
  nextExpression (2 * length ts + 2) 0 ts.

(** Modelled from the spec: [parse(source)], not in the sources at hand:
    the tokens of the source, then one expression. *)
Definition parse (src : string) : ParseResult :=
  match tokenize src with
  | Some ts => parse_tokens ts
  | None => ParseError
  end.

End Parser.

(** ** Run-time values and the object store

    Arrays, objects, environments and functions are mutable and shared by
    reference, so they live in a store; a value is a primitive or a
    reference into it. Syntax trees given to the evaluator are values:
    their list nodes are arrays in the store. Nil is [undefined], the
    one nil the evaluator produces and the one of the specification's
    data model; [null] is a value too, which only the host can supply
    (a binding, an argument or the result of a host function). *)

Abbreviation loc := nat.

Inductive Value : Type :=
| VUndef
| VBool (b : bool)
| VNum (f : float)
| VStr (s : string)
| VRef (l : loc)
| VNull.

Inductive FunKind : Type :=
| FHost (id : string)                       (* a function supplied by the host *)
| FLambda (args body : Value) (scope : loc) (* the arrow function of a lambda form *)
| FToString (args body : Value)             (* the [toString] method of a lambda *)
| FBound (target : loc) (this : Value).     (* the result of [bind] *)

Inductive Class : Type :=
| CObject
| CArray (elems : list Value)
| CFunction (k : FunKind)
| CEnv (parent global : option loc).

Record JSObject : Type := mkObj {
  o_class : Class;
  o_props : gmap string Value
}.

Abbreviation Heap := (list JSObject).

Inductive Outcome (A : Type) : Type :=
| Ok (a : A) (h : Heap)
| Throw (e : Value) (h : Heap)
| OutOfFuel.

Arguments Ok {A} a h.
Arguments Throw {A} e h.
Arguments OutOfFuel {A}.

(** Computations over the store that may throw. *)
Definition M (A : Type) : Type := Heap -> Outcome A.

Definition ret {A} (a : A) : M A := fun h => Ok a h.

Definition bind {A B} (m : M A) (k : A -> M B) : M B := fun h =>
  match m h with
  | Ok a h' => k a h'
  | Throw e h' => Throw e h'
  | OutOfFuel => OutOfFuel
  end.

Definition throw {A} (e : Value) : M A := fun h => Throw e h.

(** [try { m } catch (e) { handler e }] *)
Definition try_catch {A} (m : M A) (handler : Value -> M A) : M A := fun h =>
  match m h with
  | Throw e h' => handler e h'
  | r => r
  end.

Definition with_heap {A} (f : Heap -> M A) : M A := fun h => f h h.

Definition write (f : Heap -> Heap) : M unit := fun h => Ok tt (f h).

Definition alloc (o : JSObject) : M loc := fun h => Ok (length h) (h ++ [o]).

Declare Scope eval_scope.
Delimit Scope eval_scope with eval.
Notation "x <- c1 ;; c2" := (bind c1 (fun x => c2))
  (at level 100, c1 at next level, right associativity) : eval_scope.
Notation "c1 ;;; c2" := (bind c1 (fun _ => c2))
  (at level 100, right associativity) : eval_scope.
Local Open Scope eval_scope.

Module Js.

Definition empty_object : JSObject := mkObj CObject ∅.

(** References are always allocated; the default is not reached on a
    store built by the operations below. *)
Definition obj_at (h : Heap) (l : loc) : JSObject := default empty_object (h !! l).

Definition class_of (h : Heap) (v : Value) : option Class :=
  match v with
  | VRef l => Some (o_class (obj_at h l))
  | _ => None
  end.

(** [Array.isArray(v)], [v instanceof Array] *)
Definition is_array (h : Heap) (v : Value) : bool :=
  match class_of h v with Some (CArray _) => true | _ => false end.

Definition is_array_class (c : Class) : bool :=
  match c with CArray _ => true | _ => false end.

(** [v instanceof Function] *)
Definition is_function (h : Heap) (v : Value) : bool :=
  match class_of h v with Some (CFunction _) => true | _ => false end.

Definition elems (h : Heap) (v : Value) : list Value :=
  match class_of h v with Some (CArray es) => es | _ => [] end.

(** [a[i]] and [a.length] for an array [a]. *)
Definition nth (h : Heap) (a : Value) (i : nat) : Value :=
  default VUndef (elems h a !! i).

Definition typeof (h : Heap) (v : Value) : string :=
  match v with
  | VUndef => "undefined"
  | VBool _ => "boolean"
  | VNum _ => "number"
  | VStr _ => "string"
  | VRef _ => if is_function h v then "function" else "object"
  | VNull => "object"
  end.

(** [v == null] *)
Definition is_null (v : Value) : bool :=
  match v with VUndef | VNull => true | _ => false end.

(** [v === 'lit'] *)
Definition is_str (v : Value) (lit : string) : bool :=
  match v with VStr s => String.eqb s lit | _ => false end.

Definition truthy (v : Value) : bool :=
  match v with
  | VUndef => false
  | VBool b => b
  | VNum f => negb (Num.falsy f)
  | VStr s => Lex.nonempty s
  | VRef _ => true
  | VNull => false
  end.

(** The array index a number denotes, when it is an integer below
    [2^32 - 1]. *)
Definition index_of_float (f : float) : option nat :=
  match Prim2SF f with
  | S754_zero _ => Some 0
  | S754_finite false m e =>
      let v := match e with
               | Zneg k => if (Zpos m mod 2 ^ Zpos k =? 0)%Z
                           then Some (Zpos m / 2 ^ Zpos k)%Z else None
               | _ => if (e <? 64)%Z then Some (Zpos m * 2 ^ e)%Z else None
               end in
      match v with
      | Some z => if (z <? 4294967295)%Z then Some (Z.to_nat z) else None
      | None => None
      end
  | _ => None
  end.

(** The array index a string denotes: a canonical decimal numeral
    below [2^32 - 1]. *)
Definition index_of_string (s : string) : option nat :=
  match s with
  | EmptyString => None
  | String "0" EmptyString => Some 0
  | String "0" _ => None
  | _ =>
      if Lex.nonempty (Lex.skip Num.is_digit s) then None
      else if (10 <? String.length s)%nat then None
      else let n := Num.digits_val 0 s in
           if (n <? 4294967295)%N then Some (N.to_nat n) else None
  end.

Definition index_of_key (key : Value) : option nat :=
  match key with
  | VNum f => index_of_float f
  | VStr s => index_of_string s
  | _ => None
  end.

(** The property name of an array index. *)
Definition index_key (i : nat) : string :=
  NilZero.string_of_uint (Nat.to_uint i).

End Js.

(** ** The evaluator

    What lies outside the evaluator's sources is a parameter: the host's
    functions, the text of a number or of an object used as a property
    name, the pretty-printer of the format module, and the members
    that values inherit from the run time's built-in prototypes. *)

Section Evaluator.

Variable host_call : string -> Value -> list Value -> M Value.
Variable number_to_string : float -> string.
Variable object_to_string : Heap -> loc -> string.
Variable syntaxTreeToString : Heap -> Value -> string.

(** The member a value inherits under a name from the built-in
    prototypes of the run time (nil when there is none). *)
Variable inherited : Heap -> Value -> string -> Value.

(** *** Property access *)

(** [ToPropertyKey] *)
Definition to_property_key (h : Heap) (v : Value) : string :=
  match v with
  | VStr s => s
  | VUndef => "undefined"
  | VBool true => "true"
  | VBool false => "false"
  | VNum f => number_to_string f
  | VRef l => object_to_string h l
  | VNull => "null"
  end.

(** Modelled from the spec: the environment module is not in the
    sources at hand. An environment is a mapping from symbol to value
    chained through an optional parent handle; reading a name resolves
    it in the current scope, then the parent, and so on. *)
Fixpoint env_read (fuel : nat) (h : Heap) (l : loc) (name : string) : option Value :=
  match fuel with
  | O => None
  | S fuel' =>
      let o := Js.obj_at h l in
      match o_props o !! name with
      | Some v => Some v
      | None =>
          match o_class o with
          | CEnv (Some p) _ => env_read fuel' h p name
          | _ => None
          end
      end
  end.

(** [v[key]] for a value [v] that is not nil: an element or the length
    of an array or a string, an own property, a binding of the scope
    chain, or else what the value inherits. *)
Definition get_prop (h : Heap) (v key : Value) : Value :=
  let name := to_property_key h key in
  match v with
  | VRef l =>
      let o := Js.obj_at h l in
      match o_class o with
      | CArray es =>
          match Js.index_of_key key with
          | Some i => default VUndef (es !! i)
          | None =>
              if Js.is_str key "length" then VNum (Num.of_nat (length es))
              else default (inherited h v name) (o_props o !! name)
          end
      | CEnv _ _ => default (inherited h v name) (env_read (length h) h l name)
      | _ => default (inherited h v name) (o_props o !! name)
      end
  | VStr s =>
      match Js.index_of_key key with
      | Some i =>
          match String.get i s with
          | Some c => VStr (String c EmptyString)
          | None => VUndef
          end
      | None =>
          if Js.is_str key "length" then VNum (Num.of_nat (String.length s))
          else inherited h v name
      end
  | VUndef | VNull => VUndef
  | _ => inherited h v name
  end.

(** An error object of the run time, thrown. *)
Definition js_error {A} (name message : string) : M A :=
  e <- alloc (mkObj CObject (<["name" := VStr name]> {["message" := VStr message]})) ;;
  throw (VRef e).

(** [a[i] = x] on the elements of an array; writing past the end
    extends the array. *)
Definition array_put (es : list Value) (i : nat) (x : Value) : list Value :=
  if (i <? length es)%nat then <[i := x]> es
  else es ++ replicate (i - length es) VUndef ++ [x].

(** [a.length = n] *)
Definition array_resize (es : list Value) (n : nat) : list Value :=
  take n es ++ replicate (n - length es) VUndef.

Definition prim_to_number (v : Value) : float :=
  match v with
  | VNum f => f
  | VStr s => JsString.to_number s
  | VBool true => Num.of_nat 1
  | VBool false => Num.zero
  | VNull => Num.zero
  | _ => Num.nan
  end.

(** [v[key] = x] (module code is strict: a property cannot be created
    on a primitive). *)
Definition set_prop (v key x : Value) : M unit :=
  with_heap (fun h =>
    match v with
    | VRef l =>
        let o := Js.obj_at h l in
        let named :=
          write (fun h => <[l := mkObj (o_class o)
                                 (<[to_property_key h key := x]> (o_props o))]> h) in
        match o_class o with
        | CArray es =>
            match Js.index_of_key key with
            | Some i =>
                write (fun h => <[l := mkObj (CArray (array_put es i x)) (o_props o)]> h)
            | None =>
                if Js.is_str key "length" then
                  match Js.index_of_float (prim_to_number x) with
                  | Some n =>
                      write (fun h => <[l := mkObj (CArray (array_resize es n)) (o_props o)]> h)
                  | None => js_error "RangeError" "Invalid array length"
                  end
                else named
            end
        | _ => named
        end
    | _ => js_error "TypeError" "Cannot set property"
    end).

(** [Object.defineProperty(f, 'name', { value })] *)
Definition define_name (l : loc) (name : string) : M unit :=
  write (fun h =>
    let o := Js.obj_at h l in
    <[l := mkObj (o_class o) (<["name" := VStr name]> (o_props o))]> h).

(** The own enumerable properties [Object.assign] and a spread copy. *)
Definition own_props (h : Heap) (v : Value) : gmap string Value :=
  let indexed (xs : list Value) : gmap string Value :=
    list_to_map (imap (fun i x => (Js.index_key i, x)) xs) in
  match v with
  | VRef l =>
      let o := Js.obj_at h l in
      match o_class o with
      | CArray es => o_props o ∪ indexed es
      | _ => o_props o
      end
  | VStr s => indexed ((fun c => VStr (String c EmptyString)) <$> list_ascii_of_string s)
  | _ => ∅
  end.

(** [Object.assign(target, source)] for a plain [target]. *)
Definition object_assign (target : loc) (source : Value) : M unit :=
  write (fun h =>
    let o := Js.obj_at h target in
    <[target := mkObj (o_class o) (own_props h source ∪ o_props o)]> h).

(** The values a spread [...v] iterates over. *)
Definition iterate (v : Value) : M (list Value) :=
  with_heap (fun h =>
    match v with
    | VStr s => ret ((fun c => VStr (String c EmptyString)) <$> list_ascii_of_string s)
    | _ =>
        if Js.is_array h v then ret (Js.elems h v)
        else js_error "TypeError" "not iterable"
    end).

(** [result.push(x)] *)
Definition array_push (l : loc) (xs : list Value) : M unit :=
  write (fun h =>
    let o := Js.obj_at h l in
    match o_class o with
    | CArray es => <[l := mkObj (CArray (es ++ xs)) (o_props o)]> h
    | _ => h
    end).

(** [result.pop()] *)
Definition array_pop (l : loc) : M Value :=
  with_heap (fun h =>
    let o := Js.obj_at h l in
    match o_class o with
    | CArray es =>
        write (fun h => <[l := mkObj (CArray (removelast es)) (o_props o)]> h) ;;;
        ret (List.last es VUndef)
    | _ => ret VUndef
    end).

Definition new_array (es : list Value) : M Value :=
  l <- alloc (mkObj (CArray es) ∅) ;; ret (VRef l).

(** *** Environments *)

(** Modelled from the spec: [Environment.root], the shared root
    environment, is the first object of the store. *)
Definition root : loc := 0.

(** Modelled from the spec: [env.parent], the optional handle to the
    enclosing scope. *)
Definition env_parent (h : Heap) (env : loc) : option loc :=
  match o_class (Js.obj_at h env) with
  | CEnv p _ => p
  | _ => None
  end.

(** Modelled from the spec: [env.global] is the handle to the top-most
    scope of the current evaluation below the root; the root has none. *)
Definition env_global (h : Heap) (env : loc) : option loc :=
  match o_class (Js.obj_at h env) with
  | CEnv _ g => g
  | _ => None
  end.

(** Modelled from the spec: [env.create()] produces a new child scope
    whose parent is the receiver; the child shares the receiver's
    global scope, and is itself the global scope when the receiver has
    none. *)
Definition env_create (env : loc) : M loc :=
  with_heap (fun h =>
    let g := match env_global h env with
             | Some g => g
             | None => length h
             end in
    alloc (mkObj (CEnv (Some env) (Some g)) ∅)).

(** Modelled from the spec: [env.throw(err)] raises an evaluation error
    carrying [err] and never returns. The evaluator passes an object
    with one [message]. *)
Definition env_throw {A} (message : string) : M A :=
  e <- alloc (mkObj CObject {["message" := VStr message]}) ;;
  throw (VRef e).

(** Modelled from the spec: [createEnvironment()] is a fresh child of
    the root. *)
Definition createEnvironment : M loc := env_create root.

(** *** One turn of the evaluator, over the evaluator itself

    [ev] stands for the recursive calls of [evaluate]. *)

Section Step.

Variable ev : Value -> loc -> M Value.

(** The elements of [ast.map(a => evaluate(a, env))], from index [i]
    on: the result array exists first, and each element is read when
    its turn comes. *)
Fixpoint map_evaluate (ast : Value) (env : loc) (result : loc)
    (i count : nat) : M unit :=
  match count with
  | O => ret tt
  | S count' =>
      with_heap (fun h =>
        match Js.elems h ast !! i with
        | Some a =>
            v <- ev a env ;;
            set_prop (VRef result) (VNum (Num.of_nat i)) v
        | None => ret tt
        end) ;;;
      map_evaluate ast env result (S i) count'
  end.

(** The walk of [evaluateExpression] for a symbol up the scope chain. *)
Fixpoint lookup_symbol (fuel : nat) (name : string) (env : loc) : M Value :=
  with_heap (fun h =>
    match o_props (Js.obj_at h env) !! name with
    | Some v => ret v
    | None =>
        match env_parent h env with
        | Some p =>
            match fuel with
            | O => fun _ => OutOfFuel
            | S fuel' => lookup_symbol fuel' name p
            end
        | None =>
            match o_props (Js.obj_at h root) !! name with
            | Some v => ret v
            | None =>
                env_throw ("Undefined symbol " +:+ String "034" name
                           +:+ String "034" EmptyString)
            end
        end
    end).

Definition evaluateExpression (ast : Value) (env : loc) : M Value :=
  with_heap (fun h =>
    if Js.is_array h ast then
      let n := length (Js.elems h ast) in
      result <- alloc (mkObj (CArray (replicate n VUndef)) ∅) ;;
      map_evaluate ast env result 0 n ;;;
      ret (VRef result)
    else
      match ast with
      | VStr name =>
          if String.eqb name "local" then ret (VRef env)
          else if String.eqb name "global"
          then ret (from_option VRef VUndef (env_global h env))
          else lookup_symbol (length h) name env
      | _ => ret ast
      end).

(** The callback of [args.forEach] in [bindFunctionScope], for the
    argument definition [a] at index [i]. *)
Definition bind_arg (env boundEnv : loc) (args : Value)
    (givenArgs : list Value) (a : Value) (i : nat) : M unit :=
  with_heap (fun h =>
    let given := default VUndef (givenArgs !! i) in
    if Js.is_str a "&" then
      let name := Js.nth h args (i + 1) in
      rest <- new_array (drop i givenArgs) ;;
      set_prop (VRef boundEnv) name rest
    else if String.eqb (Js.typeof h a) "string" then
      set_prop (VRef boundEnv) a given
    else if Js.is_array h a then
      if Js.is_str (Js.nth h a 0) "def" && negb (Js.is_null (Js.nth h a 1)) then
        v <- (if negb (Js.is_null given) then ret given
              else evaluateExpression (Js.nth h a 2) boundEnv) ;;
        set_prop (VRef boundEnv) (Js.nth h a 1) v
      else if Js.is_str (Js.nth h a 0) "..." && negb (Js.is_null (Js.nth h a 1)) then
        rest <- new_array (drop i givenArgs) ;;
        set_prop (VRef boundEnv) (Js.nth h a 1) rest
      else
        e <- new_array [a] ;;
        evaluateExpression e boundEnv ;;;
        ret tt
    else
      env_throw ("Unknown argument expression: " +:+ syntaxTreeToString h a)).

(** [args.forEach(callback)], from index [i] on. *)
Fixpoint bind_args (env boundEnv : loc) (args : Value)
    (givenArgs : list Value) (i count : nat) : M unit :=
  match count with
  | O => ret tt
  | S count' =>
      with_heap (fun h =>
        match Js.elems h args !! i with
        | Some a => bind_arg env boundEnv args givenArgs a i
        | None => ret tt
        end) ;;;
      bind_args env boundEnv args givenArgs (S i) count'
  end.

Definition bindFunctionScope (env : loc) (args : Value)
    (givenArgs : list Value) : M loc :=
  boundEnv <- env_create env ;;
  with_heap (fun h =>
    if Js.is_array h args then
      bind_args env boundEnv args givenArgs 0 (length (Js.elems h args))
    else js_error "TypeError" "args.forEach is not a function") ;;;
  ret boundEnv.

(** The function a chain of bound functions ends in, and the [this]
    it is called with. *)
Fixpoint bound_target (fuel : nat) (h : Heap) (f this : Value) : Value * Value :=
  match fuel, Js.class_of h f with
  | S fuel', Some (CFunction (FBound target this')) =>
      bound_target fuel' h (VRef target) this'
  | _, _ => (f, this)
  end.

(** [f.call(this, ...args)] *)
Definition call (f this : Value) (args : list Value) : M Value :=
  with_heap (fun h =>
    let '(f', this') := bound_target (length h) h f this in
    match Js.class_of h f' with
    | Some (CFunction (FHost id)) => host_call id this' args
    | Some (CFunction (FLambda largs body scope)) =>
        env <- bindFunctionScope scope largs args ;;
        ev body env
    | Some (CFunction (FToString largs body)) =>
        def <- new_array [VStr "λ"; largs; body] ;;
        with_heap (fun h => ret (VStr (syntaxTreeToString h def)))
    | _ => js_error "TypeError" "not a function"
    end).

Fixpoint expandMacro (fuel : nat) (ast : Value) (env : loc) : M Value :=
  with_heap (fun h =>
    let head := Js.nth h ast 0 in
    let macro := get_prop h (VRef env) head in
    if Js.is_array h ast
       && String.eqb (Js.typeof h head) "string"
       && Js.truthy macro
       && Js.truthy (get_prop h macro (VStr "isMacro"))
    then
      match fuel with
      | O => fun _ => OutOfFuel
      | S fuel' =>
          ast' <- call macro (VRef env) (drop 1 (Js.elems h ast)) ;;
          expandMacro fuel' ast' env
      end
    else ret ast).

(** **** Special forms *)

(** [case '~': case 'macro':] *)
Definition eval_macro (ast : Value) (env : loc) : M Value :=
  with_heap (fun h =>
    f <- ev (Js.nth h ast 1) env ;;
    set_prop f (VStr "isMacro") (VBool true) ;;;
    ret f).

(** One turn of the loop of [case 'list':]. *)
Definition eval_list_item (env : loc) (list : loc) (expr : Value) : M unit :=
  with_heap (fun h =>
    if Js.is_array h expr && Js.is_str (Js.nth h expr 0) "..." then
      inner <- new_array (drop 1 (Js.elems h expr)) ;;
      v <- ev inner env ;;
      items <- iterate v ;;
      array_push list items
    else
      v <- ev expr env ;;
      array_push list [v]).

Fixpoint for_each {A} (f : A -> M unit) (xs : list A) : M unit :=
  match xs with
  | [] => ret tt
  | x :: xs' => f x ;;; for_each f xs'
  end.

Definition eval_list (ast : Value) (env : loc) : M Value :=
  with_heap (fun h =>
    let exprs := drop 1 (Js.elems h ast) in
    list <- alloc (mkObj (CArray []) ∅) ;;
    for_each (eval_list_item env list) exprs ;;;
    ret (VRef list)).

(** The reducer of [case 'obj':], for one entry. *)
Definition eval_obj_pair (env : loc) (obj : loc) (pair : Value) : M unit :=
  with_heap (fun h =>
    if Js.is_null pair || negb (Js.is_array h pair) then ret tt
    else
      let left := Js.nth h pair 0 in
      let entry (right : Value) : M unit :=
        key <- (if String.eqb (Js.typeof h left) "object"
                then ev left env else ret left) ;;
        v <- ev right env ;;
        set_prop (VRef obj) key v in
      if Js.is_null (Js.nth h pair 1) then
        if Js.is_array h left && Js.is_str (Js.nth h left 0) "..." then
          inner <- new_array (drop 1 (Js.elems h left)) ;;
          v <- ev inner env ;;
          object_assign obj v
        else entry left
      else entry (Js.nth h pair 1)).

Definition eval_obj (ast : Value) (env : loc) : M Value :=
  with_heap (fun h =>
    let entries := drop 1 (Js.elems h ast) in
    obj <- alloc Js.empty_object ;;
    for_each (eval_obj_pair env obj) entries ;;;
    ret (VRef obj)).

(** [case 'def':] with a list as target: the rewritten tree that the
    loop continues with. *)
Definition def_member (ast : Value) (env : loc) : M Value :=
  with_heap (fun h =>
    let varName := Js.nth h ast 1 in
    let value := Js.nth h ast 2 in
    result <- alloc (mkObj (CArray (Js.elems h varName)) ∅) ;;
    member <- array_pop result ;;
    key <- ev member env ;;
    setter <- new_array [VStr "def"; key; value] ;;
    array_push result [setter] ;;;
    ret (VRef result)).

Definition eval_def (ast : Value) (env : loc) : M Value :=
  with_heap (fun h =>
    let varName := Js.nth h ast 1 in
    if Js.is_array h varName then
      ast' <- def_member ast env ;;
      ev ast' env
    else
      value <- ev (Js.nth h ast 2) env ;;
      with_heap (fun h' =>
        match value with
        | VRef f =>
            if Js.is_function h' value
            then define_name f (match varName with
                                | VStr s => s
                                | _ => "anonymous"
                                end)
            else ret tt
        | _ => ret tt
        end) ;;;
      match varName with
      | VStr _ =>
          with_heap (fun h' =>
            set_prop (VRef (default env (env_global h' env))) varName value) ;;;
          ret value
      | _ => ret VUndef
      end).

(** The loop of [case 'get':] over the members, with the value
    reached so far. *)
Fixpoint get_members (env : loc) (members : list Value) (value : Value) : M Value :=
  match members with
  | [] => ret value
  | member :: members' =>
      with_heap (fun h =>
        if Js.is_array h member && Js.is_str (Js.nth h member 0) "def" then
          x <- ev (Js.nth h member 2) env ;;
          set_prop value (Js.nth h member 1) x ;;;
          ret x
        else
          key <- ev member env ;;
          with_heap (fun h' =>
            if Js.is_function h' key then
              value' <- call key VUndef [value] ;;
              get_members env members' value'
            else if negb (String.eqb (Js.typeof h' key) "string")
                    && negb (String.eqb (Js.typeof h' key) "number")
            then ret VUndef
            else if Js.is_null value
            then js_error "TypeError"
                   match value with
                   | VNull => "Cannot read properties of null"
                   | _ => "Cannot read properties of undefined"
                   end
            else if Js.is_null (get_prop h' value key)
                    || Js.is_str key "__proto__"
            then ret VUndef
            else
              match get_prop h' value key with
              | VRef f =>
                  if Js.is_function h' (VRef f) then
                    b <- alloc (mkObj (CFunction (FBound f value)) ∅) ;;
                    get_members env members' (VRef b)
                  else get_members env members' (VRef f)
              | x => get_members env members' x
              end))
  end.

Definition eval_get (ast : Value) (env : loc) : M Value :=
  with_heap (fun h =>
    let members := drop 2 (Js.elems h ast) in
    rootValue <- ev (Js.nth h ast 1) env ;;
    match members with
    | [] => ret rootValue
    | _ =>
        with_heap (fun h' =>
          if negb (String.eqb (Js.typeof h' rootValue) "object")
          then env_throw "Cannot access member: not an array or object"
          else get_members env members rootValue)
    end).

Definition eval_try (ast : Value) (env : loc) : M Value :=
  with_heap (fun h =>
    try_catch (ev (Js.nth h ast 1) env) (fun e =>
      with_heap (fun h' =>
        let handler := Js.nth h' ast 2 in
        if negb (Js.is_array h' handler) then ret VUndef
        else
          let argDef := Js.nth h' handler 1 in
          let body := Js.nth h' handler 2 in
          args <- new_array [argDef] ;;
          scope <- bindFunctionScope env args [e] ;;
          ev body scope))).

(** [case 'λ': case 'lambda':] The function object carries the
    properties [lambda] and [toString]. *)
Definition eval_lambda (ast : Value) (env : loc) : M Value :=
  with_heap (fun h =>
    args <- (if Js.is_array h (Js.nth h ast 1) then ret (Js.nth h ast 1)
             else new_array []) ;;
    let body := Js.nth h ast 2 in
    props <- alloc (mkObj CObject
               (<["args" := args]> (<["body" := body]> {["scope" := VRef env]}))) ;;
    toString <- alloc (mkObj (CFunction (FToString args body)) ∅) ;;
    f <- alloc (mkObj (CFunction (FLambda args body env))
           (<["lambda" := VRef props]> {["toString" := VRef toString]})) ;;
    ret (VRef f)).

(** [pairs.forEach((value, i) => ...)] of [case 'let':], from index
    [i] on. *)
Fixpoint let_pairs (pairs : Value) (env : loc) (i count : nat) : M unit :=
  match count with
  | O => ret tt
  | S count' =>
      with_heap (fun h =>
        match Js.elems h pairs !! i with
        | Some value =>
            if (i mod 2 =? 1)%nat then
              let key := Js.nth h pairs (i - 1) in
              v <- ev value env ;;
              set_prop (VRef env) key v
            else ret tt
        | None => ret tt
        end) ;;;
      let_pairs pairs env (S i) count'
  end.

Definition eval_let (ast : Value) (env : loc) : M Value :=
  with_heap (fun h =>
    let pairs := Js.nth h ast 1 in
    if Js.is_null pairs || negb (Js.is_array h pairs) then ret VUndef
    else
      env' <- env_create env ;;
      let_pairs pairs env' 0 (length (Js.elems h pairs)) ;;;
      with_heap (fun h' => ev (Js.nth h' ast 2) env')).

Definition eval_do (ast : Value) (env : loc) : M Value :=
  with_heap (fun h =>
    let last := length (Js.elems h ast) - 1 in
    if (last =? 0)%nat then ret VUndef
    else
      effects <- new_array (take (last - 1) (drop 1 (Js.elems h ast))) ;;
      evaluateExpression effects env ;;;
      with_heap (fun h' => ev (Js.nth h' ast last) env)).

Definition eval_if (ast : Value) (env : loc) : M Value :=
  with_heap (fun h =>
    if Js.is_null (Js.nth h ast 1) then env_throw "No condition for if"
    else if Js.is_null (Js.nth h ast 2) then env_throw "No true branch for if"
    else if Js.is_null (Js.nth h ast 3) then
      c <- ev (Js.nth h ast 1) env ;;
      if negb (Js.truthy c) then ret VUndef
      else with_heap (fun h' => ev (Js.nth h' ast 2) env)
    else
      c <- ev (Js.nth h ast 1) env ;;
      with_heap (fun h' =>
        ev (if Js.truthy c then Js.nth h' ast 2 else Js.nth h' ast 3) env)).

(** The invocation of a list form. *)
Definition eval_invoke (ast : Value) (env : loc) : M Value :=
  el <- evaluateExpression ast env ;;
  with_heap (fun h =>
    let f := Js.nth h el 0 in
    let given := drop 1 (Js.elems h el) in
    if Js.is_null f then ret VUndef
    else if Js.is_array h f && Js.is_str (Js.nth h f 0) "lambda" then
      let body := Js.nth h f 2 in
      env' <- bindFunctionScope env (Js.nth h f 1) given ;;
      ev body env'
    else if Js.is_function h f then
      let lambda := get_prop h f (VStr "lambda") in
      if Js.truthy lambda then
        let body := get_prop h lambda (VStr "body") in
        match get_prop h lambda (VStr "scope") with
        | VRef scope =>
            match Js.class_of h (VRef scope) with
            | Some (CEnv _ _) =>
                env' <- bindFunctionScope scope (get_prop h lambda (VStr "args")) given ;;
                ev body env'
            | _ => js_error "TypeError" "env.create is not a function"
            end
        | _ => js_error "TypeError" "env.create is not a function"
        end
      else call f VUndef given
    else ret f).

(** [switch (ast[0])], and the invocation below it. *)
Definition dispatch (head ast : Value) (env : loc) : M Value :=
  if Js.is_str head "~" || Js.is_str head "macro" then eval_macro ast env
  else if Js.is_str head "`" || Js.is_str head "expr"
  then with_heap (fun h => ret (Js.nth h ast 1))
  else if Js.is_str head "eva" then
    with_heap (fun h =>
      ast' <- ev (Js.nth h ast 1) env ;;
      ev ast' env)
  else if Js.is_str head "comment" then ret VUndef
  else if Js.is_str head "list" then eval_list ast env
  else if Js.is_str head "obj" then eval_obj ast env
  else if Js.is_str head "def" then eval_def ast env
  else if Js.is_str head "get" then eval_get ast env
  else if Js.is_str head "try" then eval_try ast env
  else if Js.is_str head "λ" || Js.is_str head "lambda" then eval_lambda ast env
  else if Js.is_str head "let" then eval_let ast env
  else if Js.is_str head "do" then eval_do ast env
  else if Js.is_str head "if" then eval_if ast env
  else eval_invoke ast env.

(** One turn of [evaluate]; [fuel] bounds the macro expansion loop. *)
Definition evaluate_turn (fuel : nat) (ast : Value) (env : loc) : M Value :=
  with_heap (fun h =>
    if negb (Js.is_array h ast) then evaluateExpression ast env
    else
      ast <- expandMacro fuel ast env ;;
      with_heap (fun h =>
        if negb (Js.is_array h ast) then evaluateExpression ast env
        else dispatch (Js.nth h ast 0) ast env)).

End Step.

(** [evaluate(ast, env)]: every turn of the loop and every nested call
    costs one unit of fuel. *)
Fixpoint evaluate (fuel : nat) (ast : Value) (env : loc) : M Value :=
  match fuel with
  | O => fun _ => OutOfFuel
  | S fuel' => evaluate_turn (evaluate fuel') fuel' ast env
  end.

(** [evaluate(ast)] without an environment. *)
Definition evaluate_fresh (fuel : nat) (ast : Value) : M Value :=
  env <- createEnvironment ;;
  evaluate fuel ast env.

End Evaluator.

(** ** From the parser's tree to the store, and a host *)

Module Host.

(** The arrays of a parsed tree, allocated inside out. *)
Fixpoint load (e : Expr) : M Value :=
  match e with
  | ENum f => ret (VNum f)
  | EStr s => ret (VStr s)
  | EUndef => ret VUndef
  | EList l =>
      es <- (fix load_all (l : list Expr) : M (list Value) :=
               match l with
               | [] => ret []
               | x :: l' => v <- load x ;; vs <- load_all l' ;; ret (v :: vs)
               end) l ;;
      a <- alloc (mkObj (CArray es) ∅) ;;
      ret (VRef a)
  end.

(** Modelled from the spec: the standard bindings are supplied by the
    host and are not in the sources at hand. The arithmetic primitives
    [+ - * /] on two numbers are the IEEE operations; the model leaves
    every other call without a value. *)
Definition call (id : string) (this : Value) (args : list Value) : M Value :=
  match args with
  | [VNum a; VNum b] =>
      if String.eqb id "+" then ret (VNum (a + b))
      else if String.eqb id "-" then ret (VNum (a - b))
      else if String.eqb id "*" then ret (VNum (a * b))
      else if String.eqb id "/" then ret (VNum (a / b))
      else ret VUndef
  | _ => ret VUndef
  end.

(** Texts that no statement below depends on. *)
Definition number_to_string (f : float) : string :=
  match Js.index_of_float f with
  | Some n => Js.index_key n
  | None => "NaN"
  end.
Definition object_to_string (h : Heap) (l : loc) : string := "[object Object]".
Definition syntaxTreeToString (h : Heap) (v : Value) : string := "...".
Definition inherited (h : Heap) (v : Value) (name : string) : Value := VUndef.

(** Modelled from the spec: the root environment, registered once with
    the host's arithmetic primitives. *)
Definition root_heap : Heap :=
  [ mkObj (CEnv None None)
      (<["+" := VRef 1]> (<["-" := VRef 2]> (<["*" := VRef 3]> {["/" := VRef 4]})));
    mkObj (CFunction (FHost "+")) ∅;
    mkObj (CFunction (FHost "-")) ∅;
    mkObj (CFunction (FHost "*")) ∅;
    mkObj (CFunction (FHost "/")) ∅ ].

Definition evaluate : nat -> Value -> loc -> M Value :=
  evaluate call number_to_string object_to_string syntaxTreeToString inherited.

(** Parse, load into the store over the root, evaluate in a fresh
    environment; the value only. *)
Definition run (fuel : nat) (src : string) : option Value :=
  match Parser.parse src with
  | Parsed e [] =>
      match (ast <- load e ;;
             env <- createEnvironment ;;
             evaluate fuel ast env) root_heap with
      | Ok v _ => Some v
      | _ => None
      end
  | _ => None
  end.

(** The same for a tree given directly. *)
Definition run_tree (fuel : nat) (e : Expr) : option Value :=
  match (ast <- load e ;;
         env <- createEnvironment ;;
         evaluate fuel ast env) root_heap with
  | Ok v _ => Some v
  | _ => None
  end.

End Host.

(** ** Vocabulary of the statements *)

Section Vocabulary.

Variable number_to_string : float -> string.
Variable object_to_string : Heap -> loc -> string.
Variable inherited : Heap -> Value -> string -> Value.

(** The head of a list form is not bound to a macro in [env], so
    [expandMacro] leaves the form as it is. *)
Definition no_macro (h : Heap) (env : loc) (head : string) : Prop :=
  let macro := get_prop number_to_string object_to_string inherited h (VRef env) (VStr head) in
  Js.truthy macro
  && Js.truthy (get_prop number_to_string object_to_string inherited h macro (VStr "isMacro"))
  = false.

(** The thrown value carries this message. *)
Definition has_message (h : Heap) (e : Value) (msg : string) : Prop :=
  get_prop number_to_string object_to_string inherited h e (VStr "message") = VStr msg.

(** The errors of the specification, told apart by their messages. *)
Definition MalformedIf (h : Heap) (e : Value) : Prop :=
  has_message h e "No condition for if" \/ has_message h e "No true branch for if".

Definition NotIndexable (h : Heap) (e : Value) : Prop :=
  has_message h e "Cannot access member: not an array or object".


End Vocabulary.

(** ** Vocabulary of the parser statements *)

Module Precedence.

(** A rule is a binary operator producing the head [op] when its infix
    handler is the shared one at the rule's own power. *)
Definition is_binary (r : Rule) (op : string) : Prop :=
  r_infix r = Some (Rules.binary op (r_power r)) /\ 0 < r_power r.

(** A token is an operand standing for the tree [e] when its prefix
    handler returns [e] at once and it never binds to its left. *)
Definition is_operand (t : Token) (e : Expr) : Prop :=
  exists f, r_prefix (t_rule t) = Some f /\ f (t_value t) = PRet e
            /\ r_power (t_rule t) = 0.

(** The binary operators of the table: spelling in the source, head in
    the tree, rule. *)
Definition binary_operators : list (string * string * Rule) :=
  [ ("or", "||", Rules.or_); ("and", "&&", Rules.and_);
    ("||", "||", Rules.or_op); ("&&", "&&", Rules.and_op);
    ("==", "==", Rules.eq_op); ("!=", "!=", Rules.ne_op);
    ("<=", "<=", Rules.le_op); ("<", "<", Rules.lt_op);
    (">=", ">=", Rules.ge_op); (">", ">", Rules.gt_op);
    ("=", "set", Rules.set);
    ("+", "+", Rules.plus); ("-", "-", Rules.minus);
    ("*", "*", Rules.times); ("/", "/", Rules.divide) ].

(** The source [a op_a b op_b c]. *)
Definition sample (spell_a spell_b : string) : string :=
  "a " +:+ spell_a +:+ " b " +:+ spell_b +:+ " c".

(** The heads of a result of the shape [[h1, a, [h2, b, c]]] with
    nothing left over. *)
Definition grouped_right (r : ParseResult) : option (string * string) :=
  match r with
  | Parsed (EList [EStr h1; EStr x; EList [EStr h2; EStr y; EStr z]]) [] =>
      if String.eqb x "a" && String.eqb y "b" && String.eqb z "c"
      then Some (h1, h2) else None
  | _ => None
  end.

(** The check of one ordered pair of operators of the table. *)
Definition check_pair (x y : string * string * Rule) : bool :=
  let '(sa, ha, ra) := x in
  let '(sb, hb, rb) := y in
  if (r_power ra <? r_power rb)%nat then
    match grouped_right (Parser.parse (sample sa sb)) with
    | Some (h1, h2) => String.eqb h1 ha && String.eqb h2 hb
    | None => false
    end
  else true.

(** The binding power a prefix handler asks for its operand. *)
Definition operand_power (r : Rule) : option nat :=
  match r_prefix r with
  | Some f => match f EmptyString with
              | PNext rbp _ => Some rbp
              | _ => None
              end
  | None => None
  end.

End Precedence.

(** ** Stores for the worked instances

    The root store holds objects 0 to 4; the objects of an instance
    follow from 5 on. *)

Module Examples.

Definition array (es : list Value) : JSObject := mkObj (CArray es) ∅.

Definition scope (parent global : loc) (bindings : gmap string Value) : JSObject :=
  mkObj (CEnv (Some parent) (Some global)) bindings.

Definition store (objs : list JSObject) : Heap := Host.root_heap ++ objs.

(** 5: [['if', 0, 1]]; 6: the global scope. *)
Definition if_store : Heap :=
  store [array [VStr "if"; VNum 0; VNum 1]; scope 0 6 ∅].

(** 5: the quoted key [b]; 6: [a.b]; 7: the global scope with [a = 5]. *)
Definition number_member_store : Heap :=
  store [array [VStr "`"; VStr "b"];
         array [VStr "get"; VStr "a"; VRef 5];
         scope 0 7 {["a" := VNum 5]}].




(** 5: [['def', 'x', 5]]; 6: the global scope; 7: a local scope. *)
Definition def_store : Heap :=
  store [array [VStr "def"; VStr "x"; VNum 5]; scope 0 6 ∅; scope 6 6 ∅].

(** 5: the quoted key [b]; 6: the target [a.b]; 7: the quoted value;
    8: [a.b = 'hi']; 9: an empty object; 10: the global scope with [a]
    bound to it. *)
Definition def_member_store : Heap :=
  store [array [VStr "`"; VStr "b"];
         array [VStr "get"; VStr "a"; VRef 5];
         array [VStr "`"; VStr "hi"];
         array [VStr "def"; VRef 6; VRef 7];
         Js.empty_object;
         scope 0 10 {["a" := VRef 9]}].

(** 5: the pair [[a, 1]]; 6: the pair [[b, 2]]; 7: an object form with a
    number between the pairs; 8: the form without it; 9: the global
    scope. *)
Definition obj_store : Heap :=
  store [array [VStr "a"; VNum 1];
         array [VStr "b"; VNum 2];
         array [VStr "obj"; VRef 5; VNum 5; VRef 6];
         array [VStr "obj"; VRef 5; VRef 6];
         scope 0 9 ∅].



(** [(lambda (x & r) r)] applied to [1, 2, 3]. *)
Definition rest_marker_call : Expr :=
  EList [EList [EStr "lambda"; EList [EStr "x"; EStr "&"; EStr "r"]; EStr "r"];
         ENum 1; ENum 2; ENum 3].

Definition tok (r : Rule) (value : string) : Token := mkToken r value.

(** 5: the quoted key [b]; 6: [a.b]; 7: [a[true]]; 8: the global scope,
    in which the host has bound [a] to [null]. *)
Definition null_base_store : Heap :=
  store [array [VStr "`"; VStr "b"];
         array [VStr "get"; VStr "a"; VRef 5];
         array [VStr "get"; VStr "a"; VBool true];
         scope 0 8 {["a" := VNull]}].



End Examples.

Inductive scope_chain (h : Heap) : loc -> list loc -> Prop :=
| chain_top (env : loc) :
    env_parent h env = None -> scope_chain h env [env]
| chain_up (env p : loc) (c : list loc) :
    env_parent h env = Some p -> scope_chain h p c -> scope_chain h env (env :: c).

Fixpoint first_binding (h : Heap) (name : string) (c : list loc) : option Value :=
  match c with
  | [] => None
  | l :: c' =>
      match o_props (Js.obj_at h l) !! name with
      | Some v => Some v
      | None => first_binding h name c'
      end
  end.

(** The message of the error for a symbol that no scope binds. *)
Definition undefined_symbol (name : string) : string :=
  "Undefined symbol " +:+ String "034" name +:+ String "034" EmptyString.


(** Literals: numbers, booleans and nil ([undefined]), which evaluate
    to themselves in every store. [null] does so too, but the forms
    take it for an absent operand and the statements leave it out. *)
Definition self_evaluating (v : Value) : bool :=
  match v with
  | VUndef | VBool _ | VNum _ => true
  | VStr _ | VRef _ | VNull => false
  end.

(** The heads that [switch (ast[0])] of [evaluate] has a case for. *)
Definition special_form (s : string) : bool :=
  existsb (String.eqb s)
    ["~"; "macro"; "`"; "expr"; "eva"; "comment"; "list"; "obj"; "def"; "get";
     "try"; "λ"; "lambda"; "let"; "do"; "if"].

(** A symbol denotes [v] from the scope [env]: the scopes from [env] up
    and the root are in the store, and the first of them that has the
    name binds it to [v]. *)
Definition resolves (h : Heap) (env : loc) (name : string) (v : Value) : Prop :=
  exists c, scope_chain h env c
            /\ Forall (fun l => l < length h) (c ++ [root])
            /\ first_binding h name (c ++ [root]) = Some v.



(** The bindings a list of named values leaves, taken in order: a later
    name overrides an earlier equal one. *)
Fixpoint bind_pairs (kvs : list (string * Value)) (m : gmap string Value) :
    gmap string Value :=
  match kvs with
  | [] => m
  | kv :: kvs' => bind_pairs kvs' (<[kv.1 := kv.2]> m)
  end.

(** An entry of an object form that names its value: the pair
    [[k, v]] of a name and a self-evaluating value that is not nil, or
    the shorthand [[k]] for a symbol that denotes [v]. *)
Definition entry_denotes (h : Heap) (env : loc) (e : Value) (kv : string * Value) : Prop :=
  (Js.class_of h e = Some (CArray [VStr kv.1; kv.2])
   /\ self_evaluating kv.2 = true /\ kv.2 <> VUndef)
  \/ (Js.class_of h e = Some (CArray [VStr kv.1])
      /\ resolves h env kv.1 kv.2 /\ kv.1 <> "local" /\ kv.1 <> "global").

(** ** More stores for worked instances (objects from 5 on) *)

Module Stores.

Import Examples.

Definition object (props : gmap string Value) : JSObject := mkObj CObject props.

(** 5: the quoted number; 6: [eva] of it; 7: the global scope. *)
Definition eva_store : Heap :=
  store [array [VStr "`"; VNum 7]; array [VStr "eva"; VRef 5]; scope 0 7 ∅].

(** 5: [list(1, 2)]; 6: the global scope. *)
Definition list_store : Heap :=
  store [array [VStr "list"; VNum 1; VNum 2]; scope 0 6 ∅].

(** 5: the spread of [xs]; 6: the list form; 7: the list [xs] denotes;
    8: the global scope. *)
Definition spread_store : Heap :=
  store [array [VStr "..."; VStr "xs"]; array [VStr "list"; VRef 5];
         array [VNum 1; VNum 2]; scope 0 8 {["xs" := VRef 7]}].

(** 5: [do(1, 2)]; 6: the global scope. *)
Definition do_store : Heap :=
  store [array [VStr "do"; VNum 1; VNum 2]; scope 0 6 ∅].


(** 5: [1 + 2] as a form; 6: the global scope. *)
Definition sum_store : Heap :=
  store [array [VStr "+"; VNum 1; VNum 2]; scope 0 6 ∅].



(** 5: a list of two numbers; 6: the global scope. *)
Definition numbers_store : Heap :=
  store [array [VNum 5; VNum 1]; scope 0 6 ∅].

(** 5: an object whose member [m] is the host's addition; 6: the quoted
    key; 7: [o.m]; 8: [o] piped into [+]; 9: the global scope. *)
Definition method_store : Heap :=
  store [object {["m" := VRef 1]};
         array [VStr "`"; VStr "m"];
         array [VStr "get"; VStr "o"; VRef 6];
         array [VStr "get"; VStr "o"; VStr "+"];
         scope 0 9 {["o" := VRef 5]}].


(** 5: the pair [[a, 1]]; 6: the shorthand [[b]]; 7: the object form;
    8: the global scope. *)
Definition pairs_store : Heap :=
  store [array [VStr "a"; VNum 1]; array [VStr "b"];
         array [VStr "obj"; VRef 5; VRef 6]; scope 0 8 {["b" := VNum 2]}].



(** 5: the host's addition marked as a macro; 6: the global scope with
    [m] bound to it; 7: the form [m(1, 2)]; 8: the form that marks the
    addition. *)
Definition macro_store : Heap :=
  store [mkObj (CFunction (FHost "+")) {["isMacro" := VBool true]};
         scope 0 6 {["m" := VRef 5]};
         array [VStr "m"; VNum 1; VNum 2];
         array [VStr "macro"; VStr "+"]].

(** 5: a list of two numbers; 6: its element 1; 7: its element 5, past
    the end; 8: the global scope with [xs] bound to the list. *)
Definition element_store : Heap :=
  store [array [VNum 10; VNum 20];
         array [VStr "get"; VStr "xs"; VNum (Num.of_nat 1)];
         array [VStr "get"; VStr "xs"; VNum (Num.of_nat 5)];
         scope 0 8 {["xs" := VRef 5]}].

(** 5: an object whose member [n] is a number; 6, 7: the quoted keys [n]
    and [c]; 8: [o.n.c]; 9: the global scope with [o] bound to the
    object. *)
Definition chain_store : Heap :=
  store [object {["n" := VNum 5]};
         array [VStr "`"; VStr "n"];
         array [VStr "`"; VStr "c"];
         array [VStr "get"; VStr "o"; VRef 6; VRef 7];
         scope 0 9 {["o" := VRef 5]}].

End Stores.

(** ** Vocabulary of the statements on tokens *)

(** A character that stands for itself inside both kinds of quoted
    string: no quote, no backslash, no control character. *)
Definition plain_char (c : ascii) : bool :=
  negb (Ascii.eqb c "'") && negb (Ascii.eqb c "034") && negb (Ascii.eqb c "\")
  && (32 <=? nat_of_ascii c)%nat.

Fixpoint plain_text (s : string) : bool :=
  match s with
  | EmptyString => true
  | String c s' => plain_char c && plain_text s'
  end.

(** The text of a quoted token: the quote, the body, the quote. *)
Definition quoted (q : ascii) (body : string) : string :=
  String q (body +:+ String q EmptyString).

(** The prefix handler of a rule on a token text, nothing when the rule
    has none. *)
Definition prefix_of (r : Rule) (value : string) : option Parse :=
  match r_prefix r with
  | Some f => Some (f value)
  | None => None
  end.

(** The rule the order of the table selects for a source: it matches,
    and no rule before it in the table does. *)
Definition selects (r : Rule) (src rest : string) : Prop :=
  exists before after,
    Rules.rules = before ++ r :: after
    /\ Forall (fun r' => r_match r' src = None) before
    /\ r_match r src = Some rest.

(** A continuation of the source at which a run of digits ends: it
    starts with neither a digit nor a dot. *)
Definition ends_number (rest : string) : bool :=
  match rest with
  | EmptyString => true
  | String c _ => negb (Num.is_digit c) && negb (Ascii.eqb c ".")
  end.

(** Every character of a text satisfies [p]. *)
Fixpoint all_chars (p : ascii -> bool) (s : string) : bool :=
  match s with
  | EmptyString => true
  | String c s' => p c && all_chars p s'
  end.

(** The text of a name: word characters, the first of them no digit. *)
Definition name_text (s : string) : bool :=
  match s with
  | EmptyString => false
  | String c _ => negb (Num.is_digit c) && all_chars Lex.is_word s
  end.

(** ** The command line ([cli/common.ts]) *)

Module Cli.

(** The value of an option: [true], or the text after the first [=]. *)
Inductive OptionValue : Type :=
| OTrue
| OText (s : string).

(** [s.split('=')] *)
Fixpoint split_eq (s : string) : list string :=
  match s with
  | EmptyString => [EmptyString]
  | String c s' =>
      if Ascii.eqb c "=" then EmptyString :: split_eq s'
      else match split_eq s' with
           | p :: ps => String c p :: ps
           | [] => [String c EmptyString]
           end
  end.

(** [arg[0] !== '-'] fails *)
Definition is_option (arg : string) : bool :=
  match arg with
  | String c _ => Ascii.eqb c "-"
  | EmptyString => false
  end.

(** [arg.slice(1)] *)
Definition slice_1 (arg : string) : string :=
  match arg with
  | String _ r => r
  | EmptyString => EmptyString
  end.

(** [o[key] = value] on the plain object [o], for a value that is no
    object: an own property, except under the key [__proto__], whose
    setter ignores such a value. *)
Definition assign (o : gmap string OptionValue) (key : string) (value : OptionValue) :
    gmap string OptionValue :=
  if String.eqb key "__proto__" then o else <[key := value]> o.

(** One step of the [reduce]: the accumulator [o] and the array [args]
    that the callback pushes to. *)
Definition step (st : gmap string OptionValue * list string) (arg : string) :
    gmap string OptionValue * list string :=
  let '(o, args) := st in
  if negb (is_option arg) then (o, args ++ [arg])
  else
    let parts := split_eq (slice_1 arg) in
    let key := default EmptyString (parts !! 0) in
    let value := match parts !! 1 with
                 | Some v => OText v
                 | None => OTrue
                 end in
    (assign o key value, args).

(** [options] and [args] for the arguments [process.argv.slice(2)]. *)
Definition parse_argv (argv : list string) : gmap string OptionValue * list string :=
  fold_left step argv (∅, []).

(** A text without [=]. *)
Fixpoint no_eq (s : string) : bool :=
  match s with
  | EmptyString => true
  | String c s' => negb (Ascii.eqb c "=") && no_eq s'
  end.

End Cli.

(** ** The demo page's [debounce] ([example/src/index.ts]) *)

Module Debounce.

(** What a call of the debounced function does. *)
Inductive Event : Type :=
| Ran                       (* [fn()] *)
| Cleared (timer : nat)     (* [clearTimeout(timer)] *)
| Scheduled (timer : nat).  (* [setTimeout(fn, duration)] *)

(** One call of the function [debounce] returns, on the variable
    [timer] of its closure ([None] is [null]); [fresh] is the handle
    [setTimeout] would return, a positive number. *)
Definition call (fresh : nat) (timer : option nat) : option nat * list Event :=
  match timer with
  | None => (None, [Ran])
  | Some t => (Some fresh, [Cleared t; Scheduled fresh])
  end.

(** Successive calls, with the handles [setTimeout] would return. *)
Fixpoint calls (handles : list nat) (timer : option nat) : option nat * list Event :=
  match handles with
  | [] => (timer, [])
  | fresh :: handles' =>
      let '(timer', events) := call fresh timer in
      let '(timer'', events') := calls handles' timer' in
      (timer'', events ++ events')
  end.

End Debounce.

(** * Examples of parsing *)

Example parse_sum_product :
  Parser.parse "1 + 2 * 3" =
  Parsed (EList [EStr "+"; ENum 1; EList [EStr "*"; ENum 2; ENum 3]]) [].
Proof. vm_compute. reflexivity. Qed.

Example parse_grouped_sum :
  Parser.parse "(1 + 2) * 3" =
  Parsed (EList [EStr "*"; EList [EStr "+"; ENum 1; ENum 2]; ENum 3]) [].
Proof. vm_compute. reflexivity. Qed.

(** * Properties *)

Section Properties.

Variable host_call : string -> Value -> list Value -> M Value.
Variable number_to_string : float -> string.
Variable object_to_string : Heap -> loc -> string.
Variable syntaxTreeToString : Heap -> Value -> string.
Variable inherited : Heap -> Value -> string -> Value.

Abbreviation eval :=
  (evaluate host_call number_to_string object_to_string syntaxTreeToString inherited).
Abbreviation expand :=
  (expandMacro host_call number_to_string object_to_string syntaxTreeToString inherited).
Abbreviation macro_free := (no_macro number_to_string object_to_string inherited).
Abbreviation message := (has_message number_to_string object_to_string inherited).

Arguments get_prop : simpl never.
Arguments set_prop : simpl never.
Arguments env_throw : simpl never.

(** *** The store *)

Lemma obj_at_alloc (h : Heap) (o : JSObject) :
  Js.obj_at (h ++ [o]) (length h) = o.
Proof. unfold Js.obj_at. by rewrite list_lookup_middle. Qed.

Lemma obj_at_old (h h' : Heap) (l : loc) :
  l < length h -> Js.obj_at (h ++ h') l = Js.obj_at h l.
Proof. intros Hl. unfold Js.obj_at. by rewrite lookup_app_l. Qed.

Lemma class_array_is_array (h : Heap) (a : Value) (es : list Value) :
  Js.class_of h a = Some (CArray es) -> Js.is_array h a = true.
Proof. unfold Js.is_array. by intros ->. Qed.

Lemma class_array_elems (h : Heap) (a : Value) (es : list Value) :
  Js.class_of h a = Some (CArray es) -> Js.elems h a = es.
Proof. unfold Js.elems. by intros ->. Qed.

Lemma class_array_nth (h : Heap) (a : Value) (es : list Value) (i : nat) :
  Js.class_of h a = Some (CArray es) -> Js.nth h a i = default VUndef (es !! i).
Proof. unfold Js.nth, Js.elems. by intros ->. Qed.

(** *** Errors *)

Lemma env_throw_spec {A} (msg : string) (h : Heap) :
  exists e h', @env_throw A msg h = Throw e h' /\ message h' e msg.
Proof.
  eexists _, _. split; [reflexivity |].
  unfold env_throw, has_message, get_prop, bind, alloc, throw. rewrite obj_at_alloc. cbn.
  by rewrite lookup_singleton_eq.
Qed.

(** *** Macro expansion *)

Lemma expandMacro_free ev (fuel : nat) (h : Heap) (ast : Value) (env : loc)
    (head : string) (es : list Value) :
  Js.class_of h ast = Some (CArray (VStr head :: es)) ->
  macro_free h env head ->
  expand ev fuel ast env h = Ok ast h.
Proof.
  intros Hast Hfree. unfold no_macro in Hfree.
  destruct fuel; simpl; unfold with_heap;
    rewrite (class_array_nth _ _ _ 0 Hast); simpl;
    rewrite <- !andb_assoc, Hfree, !andb_false_r; reflexivity.
Qed.

(** A list form whose head is a symbol that is not a macro goes to the
    dispatch on its head. *)
Lemma evaluate_form (n : nat) (h : Heap) (ast : Value) (env : loc)
    (head : string) (es : list Value) :
  Js.class_of h ast = Some (CArray (VStr head :: es)) ->
  macro_free h env head ->
  eval (S n) ast env h =
  dispatch host_call number_to_string object_to_string syntaxTreeToString inherited
    (eval n) (VStr head) ast env h.
Proof.
  intros Hast Hfree. simpl. unfold evaluate_turn, with_heap at 1.
  rewrite (class_array_is_array _ _ _ Hast). cbn [negb].
  unfold bind at 1. rewrite (expandMacro_free _ _ _ _ _ _ _ Hast Hfree).
  unfold with_heap at 1. rewrite (class_array_is_array _ _ _ Hast).
  by rewrite (class_array_nth _ _ _ 0 Hast).
Qed.

(** C3. An [if] form whose condition (element 1) or then-branch
    (element 2) is nil fails with the MalformedIf error. With both
    present, once the condition has a value: a missing else-branch
    (element 3) and a false condition give nil; otherwise evaluation
    continues with the selected branch. *)
Theorem if_form (n : nat) (h : Heap) (ast : Value) (env : loc) (es : list Value) :
  Js.class_of h ast = Some (CArray (VStr "if" :: es)) ->
  macro_free h env "if" ->
  let cond := default VUndef (es !! 0) in
  let thn := default VUndef (es !! 1) in
  let els := default VUndef (es !! 2) in
  (Js.is_null cond || Js.is_null thn = true ->
     exists e h', eval (S n) ast env h = Throw e h'
                  /\ MalformedIf number_to_string object_to_string inherited h' e)
  /\ (Js.is_null cond || Js.is_null thn = false ->
      forall c h1, eval n cond env h = Ok c h1 ->
        (Js.is_null els = true -> Js.truthy c = false ->
           eval (S n) ast env h = Ok VUndef h1)
        /\ (Js.is_null els = false \/ Js.truthy c = true ->
            eval (S n) ast env h =
            eval n (if Js.truthy c then Js.nth h1 ast 2 else Js.nth h1 ast 3) env h1)).
Proof.
  intros Hast Hfree cond thn els.
  rewrite (evaluate_form _ _ _ _ _ _ Hast Hfree).
  change (dispatch _ _ _ _ _ _ (VStr "if") ast env h) with
    (eval_if (eval n) ast env h).
  unfold eval_if, with_heap.
  rewrite !(class_array_nth _ _ _ _ Hast). cbn [lookup list_lookup].
  subst cond thn els.
  set (cond := default VUndef (es !! 0)).
  set (thn := default VUndef (es !! 1)).
  set (els := default VUndef (es !! 2)).
  clearbody cond thn els.
  split.
  - intros Hnull. unfold MalformedIf.
    destruct (Js.is_null cond); cbv iota.
    + destruct (env_throw_spec (A:=Value) "No condition for if" h) as (e & h' & -> & Hm). eauto.
    + simpl in Hnull. rewrite Hnull. cbv iota.
      destruct (env_throw_spec (A:=Value) "No true branch for if" h) as (e & h' & -> & Hm). eauto.
  - intros Hnn c h1 Hc. apply orb_false_elim in Hnn as [-> ->]. cbv iota.
    destruct (Js.is_null els); cbv iota; unfold bind; rewrite Hc.
    + split.
      * intros _ ->. reflexivity.
      * intros [? | ->]; [discriminate | reflexivity].
    + split; [discriminate | reflexivity].
Qed.

(** *** Member access *)


Lemma eval_get_unfold ev (h : Heap) (ast : Value) (env : loc)
    (base member : Value) (rest : list Value) :
  Js.class_of h ast = Some (CArray (VStr "get" :: base :: member :: rest)) ->
  eval_get host_call number_to_string object_to_string syntaxTreeToString inherited ev ast env h =
  (rootValue <- ev base env ;;
   with_heap (fun h' =>
     if negb (String.eqb (Js.typeof h' rootValue) "object")
     then env_throw "Cannot access member: not an array or object"
     else get_members host_call number_to_string object_to_string syntaxTreeToString inherited
            ev env (member :: rest) rootValue)) h.
Proof.
  intros Hast. unfold eval_get, with_heap at 1.
  rewrite (class_array_elems _ _ _ Hast), (class_array_nth _ _ _ 1 Hast).
  reflexivity.
Qed.

(** The check of the root: a [get] form with at least one member whose
    base evaluates to a value whose [typeof] is not [object] (a number,
    a string, a boolean, [undefined], a function) fails with the
    NotIndexable error. *)
Theorem get_not_indexable (n : nat) (h : Heap) (ast : Value) (env : loc)
    (base member : Value) (rest : list Value) (v : Value) (h1 : Heap) :
  Js.class_of h ast = Some (CArray (VStr "get" :: base :: member :: rest)) ->
  macro_free h env "get" ->
  eval n base env h = Ok v h1 ->
  Js.typeof h1 v <> "object" ->
  exists e h2, eval (S n) ast env h = Throw e h2
               /\ NotIndexable number_to_string object_to_string inherited h2 e.
Proof.
  intros Hast Hfree Hbase Htype.
  rewrite (evaluate_form _ _ _ _ _ _ Hast Hfree).
  change (dispatch _ _ _ _ _ _ (VStr "get") ast env h) with
    (eval_get host_call number_to_string object_to_string syntaxTreeToString inherited
       (eval n) ast env h).
  rewrite (eval_get_unfold _ _ _ _ _ _ _ Hast).
  unfold bind. rewrite Hbase. unfold with_heap.
  apply String.eqb_neq in Htype. rewrite Htype. cbn [negb].
  apply env_throw_spec.
Qed.

Lemma js_error_spec {A} (name msg : string) (h : Heap) :
  exists e h',
    @js_error A name msg h = Throw e h'
    /\ message h' e msg
    /\ get_prop number_to_string object_to_string inherited h' e (VStr "name") = VStr name.
Proof.
  eexists _, _. split; [reflexivity |].
  unfold js_error, has_message, get_prop, bind, alloc, throw. rewrite obj_at_alloc. cbn.
  split; [| by rewrite lookup_insert_eq].
  rewrite lookup_insert_ne by discriminate. by rewrite lookup_singleton_eq.
Qed.

(** C4. The check of the root does not reject [null], whose [typeof] is
    [object]: a [get] form whose base evaluates to [null] does not
    fail with the NotIndexable error. With a key that is a string or a
    number the read of the member throws the run time's own TypeError;
    with a key of another type the form returns nil and no error is
    raised at all. *)
Theorem get_null_base_not_rejected (n : nat) (h : Heap) (ast : Value) (env : loc)
    (base member : Value) (rest : list Value) (key : Value) (h1 h2 : Heap) :
  Js.class_of h ast = Some (CArray (VStr "get" :: base :: member :: rest)) ->
  macro_free h env "get" ->
  eval n base env h = Ok VNull h1 ->
  Js.is_array h1 member && Js.is_str (Js.nth h1 member 0) "def" = false ->
  eval n member env h1 = Ok key h2 ->
  Js.is_function h2 key = false ->
  (Js.typeof h2 key = "string" \/ Js.typeof h2 key = "number" ->
   exists e h3, eval (S n) ast env h = Throw e h3
                /\ get_prop number_to_string object_to_string inherited h3 e (VStr "name")
                   = VStr "TypeError"
                /\ ~ NotIndexable number_to_string object_to_string inherited h3 e)
  /\ (Js.typeof h2 key <> "string" -> Js.typeof h2 key <> "number" ->
      eval (S n) ast env h = Ok VUndef h2).
Proof.
  intros Hast Hfree Hbase Hset Hkey Hfun.
  assert (Hstep : eval (S n) ast env h
                  = if negb (Js.typeof h2 key =? "string")
                       && negb (Js.typeof h2 key =? "number")
                    then Ok VUndef h2
                    else js_error "TypeError" "Cannot read properties of null" h2).
  { rewrite (evaluate_form _ _ _ _ _ _ Hast Hfree).
    change (dispatch _ _ _ _ _ _ (VStr "get") ast env h) with
      (eval_get host_call number_to_string object_to_string syntaxTreeToString inherited
         (eval n) ast env h).
    rewrite (eval_get_unfold _ _ _ _ _ _ _ Hast).
    unfold bind. rewrite Hbase. unfold with_heap at 1.
    cbn [Js.typeof String.eqb Ascii.eqb Bool.eqb negb].
    cbn [get_members]. unfold with_heap at 1. rewrite Hset.
    unfold bind at 1. rewrite Hkey. unfold with_heap at 1. rewrite Hfun.
    by destruct (negb (Js.typeof h2 key =? "string")
                 && negb (Js.typeof h2 key =? "number")). }
  split.
  - intros Hkind. rewrite Hstep.
    replace (negb (Js.typeof h2 key =? "string") && negb (Js.typeof h2 key =? "number"))
      with false by (by destruct Hkind as [-> | ->]).
    destruct (js_error_spec (A:=Value) "TypeError" "Cannot read properties of null" h2)
      as (e & h3 & -> & Hm & Hname).
    exists e, h3. split; [reflexivity |]. split; [exact Hname |].
    unfold NotIndexable, has_message in *. rewrite Hm. discriminate.
  - intros Hs Hn. rewrite Hstep.
    apply String.eqb_neq in Hs, Hn. by rewrite Hs, Hn.
Qed.



(** *** Writing properties, creating scopes *)

Lemma set_prop_named (h : Heap) (l : loc) (key x : Value) :
  Js.is_array_class (o_class (Js.obj_at h l)) = false ->
  set_prop number_to_string object_to_string (VRef l) key x h =
  Ok tt (<[l := mkObj (o_class (Js.obj_at h l))
                 (<[to_property_key number_to_string object_to_string h key := x]>
                    (o_props (Js.obj_at h l)))]> h).
Proof.
  intros Hc. unfold set_prop, with_heap.
  destruct (o_class (Js.obj_at h l)); try discriminate; reflexivity.
Qed.




(** *** Binding arguments *)




(** *** Object literals *)

Abbreviation obj_pair ev env obj :=
  (eval_obj_pair number_to_string object_to_string ev env obj).

Lemma eval_obj_pair_skip ev (env obj : loc) (p : Value) (h : Heap) :
  Js.is_null p || negb (Js.is_array h p) = true ->
  obj_pair ev env obj p h = Ok tt h.
Proof. intros Hskip. unfold eval_obj_pair, with_heap. by rewrite Hskip. Qed.

Lemma for_each_app {A} (f : A -> M unit) (xs ys : list A) (h : Heap) :
  for_each f (xs ++ ys) h = (for_each f xs ;;; for_each f ys) h.
Proof.
  revert h. induction xs as [| x xs IH]; intros h; [reflexivity |].
  cbn [app for_each]. unfold bind in IH |- *.
  destruct (f x h); [apply IH | reflexivity | reflexivity].
Qed.

Lemma eval_obj_unfold ev (h : Heap) (ast : Value) (env : loc) (entries : list Value) :
  Js.class_of h ast = Some (CArray (VStr "obj" :: entries)) ->
  eval_obj number_to_string object_to_string ev ast env h =
  (for_each (obj_pair ev env (length h)) entries ;;; ret (VRef (length h)))
    (h ++ [Js.empty_object]).
Proof.
  intros Hast. unfold eval_obj, with_heap.
  by rewrite (class_array_elems _ _ _ Hast).
Qed.

(** C10. In an [obj] form an entry that is nil or not a list, when its
    turn comes, is skipped without error: the form evaluates exactly as
    the form without that entry does. *)
Theorem obj_skips_entry (n : nat) (h : Heap) (ast ast' : Value) (env : loc)
    (pre post : list Value) (p : Value) :
  Js.class_of h ast = Some (CArray (VStr "obj" :: pre ++ p :: post)) ->
  Js.class_of h ast' = Some (CArray (VStr "obj" :: pre ++ post)) ->
  macro_free h env "obj" ->
  (forall h1, for_each (obj_pair (eval n) env (length h)) pre (h ++ [Js.empty_object])
              = Ok tt h1 ->
              Js.is_null p || negb (Js.is_array h1 p) = true) ->
  eval (S n) ast env h = eval (S n) ast' env h.
Proof.
  intros Hast Hast' Hfree Hskip.
  rewrite (evaluate_form _ _ _ _ _ _ Hast Hfree),
    (evaluate_form _ _ _ _ _ _ Hast' Hfree).
  change (dispatch _ _ _ _ _ _ (VStr "obj") ?a env h) with
    (eval_obj number_to_string object_to_string (eval n) a env h).
  rewrite (eval_obj_unfold _ _ _ _ _ Hast), (eval_obj_unfold _ _ _ _ _ Hast').
  unfold bind at 1 2. rewrite !for_each_app. unfold bind.
  destruct (for_each _ pre _) as [[] h1 | |] eqn:Hpre; try reflexivity.
  cbn [for_each]. unfold bind.
  by rewrite (eval_obj_pair_skip _ _ _ _ _ (Hskip _ eq_refl)).
Qed.

(** A form all of whose entries are skipped yields the empty object. *)
Lemma obj_all_skipped (n : nat) (h : Heap) (ast : Value) (env : loc)
    (entries : list Value) :
  Js.class_of h ast = Some (CArray (VStr "obj" :: entries)) ->
  macro_free h env "obj" ->
  Forall (fun p => Js.is_null p || negb (Js.is_array (h ++ [Js.empty_object]) p) = true)
         entries ->
  eval (S n) ast env h = Ok (VRef (length h)) (h ++ [Js.empty_object]).
Proof.
  intros Hast Hfree Hall.
  rewrite (evaluate_form _ _ _ _ _ _ Hast Hfree).
  change (dispatch _ _ _ _ _ _ (VStr "obj") ast env h) with
    (eval_obj number_to_string object_to_string (eval n) ast env h).
  rewrite (eval_obj_unfold _ _ _ _ _ Hast). unfold bind at 1.
  assert (Hloop : for_each (obj_pair (eval n) env (length h)) entries
                    (h ++ [Js.empty_object]) = Ok tt (h ++ [Js.empty_object])).
  { clear Hast. induction Hall as [| p ps Hp _ IH]; [reflexivity |].
    cbn [for_each]. unfold bind. rewrite (eval_obj_pair_skip _ _ _ _ _ Hp).
    exact IH. }
  by rewrite Hloop.
Qed.

(** *** Definitions *)

Lemma removelast_snoc {A} (l : list A) (x : A) : removelast (l ++ [x]) = l.
Proof. by rewrite removelast_app, app_nil_r. Qed.

Lemma last_snoc {A} (l : list A) (x d : A) : List.last (l ++ [x]) d = x.
Proof. apply List.last_last. Qed.

(** The rewrite of a definition whose target is a list: a copy of the
    target without its last element, then the key, then the setter. *)
Lemma def_member_unfold ev (h : Heap) (ast : Value) (env : loc) (t : loc)
    (valueAst : Value) (es init : list Value) (member : Value) :
  Js.class_of h ast = Some (CArray (VStr "def" :: VRef t :: valueAst :: es)) ->
  Js.class_of h (VRef t) = Some (CArray (init ++ [member])) ->
  def_member ev ast env h =
  (key <- ev member env ;;
   setter <- new_array [VStr "def"; key; valueAst] ;;
   array_push (length h) [setter] ;;;
   ret (VRef (length h))) (h ++ [mkObj (CArray init) ∅]).
Proof.
  intros Hast Ht. unfold def_member, with_heap at 1.
  rewrite !(class_array_nth _ _ _ _ Hast). cbn [lookup list_lookup default from_option id].
  rewrite (class_array_elems _ _ _ Ht).
  unfold bind at 1, alloc at 1. unfold bind at 1, array_pop, with_heap at 1.
  rewrite obj_at_alloc. cbn [o_class o_props].
  unfold bind at 1, write at 1, ret at 1.
  rewrite removelast_snoc, last_snoc.
  replace (length h) with (length h + 0) at 1 by lia.
  rewrite insert_app_r. reflexivity.
Qed.

Lemma eval_def_member (n : nat) (h : Heap) (ast : Value) (env : loc) (t : loc)
    (valueAst : Value) (es ts : list Value) :
  Js.class_of h ast = Some (CArray (VStr "def" :: VRef t :: valueAst :: es)) ->
  Js.class_of h (VRef t) = Some (CArray ts) ->
  macro_free h env "def" ->
  eval (S n) ast env h =
  (ast' <- def_member (eval n) ast env ;; eval n ast' env) h.
Proof.
  intros Hast Ht Hfree.
  rewrite (evaluate_form _ _ _ _ _ _ Hast Hfree).
  change (dispatch _ _ _ _ _ _ (VStr "def") ast env h) with
    (eval_def number_to_string object_to_string (eval n) ast env h).
  unfold eval_def, with_heap at 1.
  rewrite (class_array_nth _ _ _ 1 Hast). cbn [lookup list_lookup default from_option id].
  by rewrite (class_array_is_array _ _ _ Ht).
Qed.

(** C9. Evaluating a [def] form whose target is a list rewrites into a
    new list: the evaluator continues with a fresh copy of the target
    whose last element is replaced by the setter, and the rewrite
    writes to no object that existed before. When the key evaluates
    without effect on those objects, the form and its target list are
    afterwards what they were. *)
Theorem def_member_keeps_ast (n : nat) (h : Heap) (ast : Value) (env : loc)
    (t : loc) (valueAst : Value) (es init : list Value) (member key : Value)
    (h2 : Heap) :
  Js.class_of h ast = Some (CArray (VStr "def" :: VRef t :: valueAst :: es)) ->
  Js.class_of h (VRef t) = Some (CArray (init ++ [member])) ->
  macro_free h env "def" ->
  eval n member env (h ++ [mkObj (CArray init) ∅]) = Ok key h2 ->
  length h < length h2 ->
  exists h3,
    eval (S n) ast env h = eval n (VRef (length h)) env h3
    /\ (forall l, l < length h -> h3 !! l = h2 !! l)
    /\ ((forall l, l < length h -> h2 !! l = h !! l) ->
        Js.class_of h3 ast = Js.class_of h ast
        /\ Js.class_of h3 (VRef t) = Js.class_of h (VRef t))
    /\ (h2 !! length h = Some (mkObj (CArray init) ∅) ->
        Js.class_of h3 (VRef (length h)) = Some (CArray (init ++ [VRef (length h2)]))
        /\ Js.class_of h3 (VRef (length h2))
           = Some (CArray [VStr "def"; key; valueAst])).
Proof.
  intros Hast Ht Hfree Hkey Hgrow.
  rewrite (eval_def_member _ _ _ _ _ _ _ _ Hast Ht Hfree).
  unfold bind at 1. rewrite (def_member_unfold _ _ _ _ _ _ _ _ _ Hast Ht).
  unfold bind at 1. rewrite Hkey.
  unfold new_array, bind, alloc, ret, array_push, write. cbv beta iota.
  eexists. split; [reflexivity |].
  set (setter := mkObj (CArray [VStr "def"; key; valueAst]) ∅).
  set (h3 := match o_class (Js.obj_at (h2 ++ [setter]) (length h)) with
             | CArray _ => _
             | _ => _
             end).
  assert (Hframe : forall l, l < length h -> h3 !! l = h2 !! l).
  { intros l Hl. subst h3.
    destruct (o_class (Js.obj_at (h2 ++ [setter]) (length h)));
      rewrite ?list_lookup_insert_ne by lia; by rewrite lookup_app_l by lia. }
  split; [exact Hframe | split].
  - intros Hpure.
    assert (Hsame : forall v cs, Js.class_of h v = Some (CArray cs) ->
              Js.class_of h3 v = Js.class_of h v).
    { intros [| | | | l |] cs Hv; try done.
      assert (Hl : l < length h).
      { unfold Js.class_of, Js.obj_at in Hv.
        destruct (h !! l) eqn:Hlook; [by eapply lookup_lt_Some | discriminate]. }
      unfold Js.class_of, Js.obj_at. by rewrite Hframe, Hpure. }
    split; eapply Hsame; eauto.
  - intros Hcopy. subst h3.
    assert (Hr : Js.obj_at (h2 ++ [setter]) (length h) = mkObj (CArray init) ∅).
    { unfold Js.obj_at. by rewrite lookup_app_l, Hcopy by lia. }
    rewrite Hr. cbn [o_class o_props]. unfold Js.class_of, Js.obj_at. split.
    + rewrite list_lookup_insert_eq; [done |]. rewrite length_app. lia.
    + rewrite list_lookup_insert_ne by lia. by rewrite list_lookup_middle.
Qed.







End Properties.

(** * Precedence *)

Section PrecedenceProperties.

Import Precedence.

Lemma binary_operators_in_table :
  Forall (fun '(_, op, r) => In r Rules.rules /\ is_binary r op) binary_operators.
Proof.
  unfold binary_operators, is_binary.
  repeat match goal with
         | |- Forall _ (_ :: _) => constructor
         | |- Forall _ [] => constructor
         end;
    (split; [| split; [reflexivity | cbn; lia]]);
    unfold Rules.rules; repeat (first [left; reflexivity | right]).
Qed.

(** The steps of [nextExpression] on operands and binary operators. *)

Lemma nextExpression_operand (fuel rbp : nat) (t : Token) (e : Expr)
    (ts : list Token) :
  is_operand t e ->
  Parser.nextExpression (S fuel) rbp (t :: ts)
  = Parser.infix_loop (Parser.nextExpression fuel) fuel rbp e ts.
Proof. intros (f & Hf & Hr & _). simpl. by rewrite Hf, Hr. Qed.

Lemma infix_loop_nil next (fuel rbp : nat) (lhs : Expr) :
  Parser.infix_loop next fuel rbp lhs [] = Parsed lhs [].
Proof. by destruct fuel. Qed.

Lemma infix_loop_binary next (fuel rbp : nat) (lhs : Expr) (t : Token)
    (op : string) (ts : list Token) :
  is_binary (t_rule t) op ->
  rbp < r_power (t_rule t) ->
  Parser.infix_loop next (S fuel) rbp lhs (t :: ts)
  = match next (r_power (t_rule t)) ts with
    | Parsed rhs ts' =>
        Parser.infix_loop next fuel rbp (EList [EStr op; lhs; rhs]) ts'
    | r => r
    end.
Proof.
  intros [Hi _] Hlt. apply Nat.ltb_lt in Hlt. simpl. rewrite Hlt, Hi.
  unfold Rules.binary. simpl. by destruct (next _ ts).
Qed.

Lemma parse_tokens_binary (ta tb a b c : Token) (opa opb : string)
    (ea eb ec : Expr) :
  is_binary (t_rule ta) opa ->
  is_binary (t_rule tb) opb ->
  r_power (t_rule ta) < r_power (t_rule tb) ->
  is_operand a ea -> is_operand b eb -> is_operand c ec ->
  Parser.parse_tokens [a; ta; b; tb; c]
  = Parsed (EList [EStr opa; ea; EList [EStr opb; eb; ec]]) [].
Proof.
  intros Hta Htb Hlt Ha Hb Hc.
  unfold Parser.parse_tokens.
  change (2 * length [a; ta; b; tb; c] + 2) with (S (S (S 9))).
  rewrite (nextExpression_operand _ _ _ _ _ Ha).
  rewrite (infix_loop_binary _ _ _ _ _ _ _ Hta (proj2 Hta)).
  rewrite (nextExpression_operand _ _ _ _ _ Hb).
  rewrite (infix_loop_binary _ _ _ _ _ _ _ Htb Hlt).
  rewrite (nextExpression_operand _ _ _ _ _ Hc).
  by rewrite !infix_loop_nil.
Qed.

Lemma grouped_right_sound (r : ParseResult) (h1 h2 : string) :
  grouped_right r = Some (h1, h2) ->
  r = Parsed (EList [EStr h1; EStr "a"; EList [EStr h2; EStr "b"; EStr "c"]]) [].
Proof.
  unfold grouped_right. intros H.
  repeat match type of H with
         | context [match ?x with _ => _ end] =>
             lazymatch x with
             | (_ && _)%bool => fail
             | _ => destruct x; try discriminate
             end
         end.
  destruct (String.eqb _ "a") eqn:Ha; [| discriminate].
  destruct (String.eqb _ "b") eqn:Hb; [| discriminate].
  destruct (String.eqb _ "c") eqn:Hc; [| discriminate].
  apply String.eqb_eq in Ha, Hb, Hc. subst. by injection H as <- <-.
Qed.

Lemma all_pairs_checked :
  forallb (fun x => forallb (check_pair x) binary_operators) binary_operators = true.
Proof. vm_compute. reflexivity. Qed.

Lemma parse_sample_binary (sa ha sb hb : string) (ra rb : Rule) :
  In (sa, ha, ra) binary_operators ->
  In (sb, hb, rb) binary_operators ->
  r_power ra < r_power rb ->
  Parser.parse (sample sa sb)
  = Parsed (EList [EStr ha; EStr "a"; EList [EStr hb; EStr "b"; EStr "c"]]) [].
Proof.
  intros Ha Hb Hlt.
  pose proof all_pairs_checked as Hall.
  rewrite forallb_forall in Hall. specialize (Hall _ Ha).
  rewrite forallb_forall in Hall. specialize (Hall _ Hb).
  unfold check_pair in Hall. apply Nat.ltb_lt in Hlt. rewrite Hlt in Hall.
  destruct (grouped_right _) as [[h1 h2] |] eqn:Hshape; [| discriminate].
  apply andb_true_iff in Hall as [H1 H2].
  apply String.eqb_eq in H1, H2. subst.
  by apply grouped_right_sound.
Qed.

(** C1. Operator precedence: for binary operators with powers
    p_a < p_b, the input [a op_a b op_b c] parses as the tree in which
    op_b groups first, [[op_a, a, [op_b, b, c]]]: on tokens, for any two
    binary operator rules and any operands, and on the source text, for
    every pair of binary operators of the table. Parsing and evaluating
    [1 + 2 * 3] gives 7, and [(1 + 2) * 3] gives 9. *)
Theorem precedence_groups_tighter_operator :
  (forall (ta tb a b c : Token) (opa opb : string) (ea eb ec : Expr),
      is_binary (t_rule ta) opa ->
      is_binary (t_rule tb) opb ->
      r_power (t_rule ta) < r_power (t_rule tb) ->
      is_operand a ea -> is_operand b eb -> is_operand c ec ->
      Parser.parse_tokens [a; ta; b; tb; c]
      = Parsed (EList [EStr opa; ea; EList [EStr opb; eb; ec]]) [])
  /\ (forall (sa ha sb hb : string) (ra rb : Rule),
        In (sa, ha, ra) binary_operators ->
        In (sb, hb, rb) binary_operators ->
        r_power ra < r_power rb ->
        Parser.parse (sample sa sb)
        = Parsed (EList [EStr ha; EStr "a"; EList [EStr hb; EStr "b"; EStr "c"]]) [])
  /\ Host.run 10 "1 + 2 * 3" = Some (VNum 7)
  /\ Host.run 10 "(1 + 2) * 3" = Some (VNum 9).
Proof.
  split; [exact parse_tokens_binary |].
  split; [exact parse_sample_binary |].
  split; vm_compute; reflexivity.
Qed.

(** C8. The binding power at which each prefix operator reads its
    operand: 70 for the unary [+] and [-], which take only [b] before
    [b * c]; 0 for [!] and [not], which take the whole product. *)
Theorem prefix_not_reads_whole_product :
  operand_power Rules.bang = Some 0
  /\ operand_power Rules.not_ = Some 0
  /\ operand_power Rules.plus = Some 70
  /\ operand_power Rules.minus = Some 70
  /\ Parser.parse "!b * c"
     = Parsed (EList [EStr "!"; EList [EStr "*"; EStr "b"; EStr "c"]]) []
  /\ Parser.parse "not b * c"
     = Parsed (EList [EStr "!"; EList [EStr "*"; EStr "b"; EStr "c"]]) []
  /\ Parser.parse "+b * c" = Parsed (EList [EStr "*"; EStr "b"; EStr "c"]) []
  /\ Parser.parse "-2 * c" = Parsed (EList [EStr "*"; ENum (-2); EStr "c"]) [].
Proof. repeat split; vm_compute; reflexivity. Qed.

End PrecedenceProperties.

(** * Worked instances *)

Section Instances.

Import Examples.

Abbreviation heval := Host.evaluate.
Abbreviation hfree := (no_macro Host.number_to_string Host.object_to_string Host.inherited).

Lemma if_form_witness :
  Js.class_of if_store (VRef 5) = Some (CArray (VStr "if" :: [VNum 0; VNum 1]))
  /\ hfree if_store 6 "if"
  /\ heval 2 (VRef 5) 6 if_store = Ok VUndef if_store.
Proof.
  split; [reflexivity | split; [reflexivity |]].
  apply (proj1 (proj2 (if_form Host.call Host.number_to_string Host.object_to_string
                         Host.syntaxTreeToString Host.inherited 1 if_store (VRef 5) 6
                         [VNum 0; VNum 1] eq_refl eq_refl)
                      eq_refl (VNum 0) if_store eq_refl)); reflexivity.
Defined.

Lemma get_not_indexable_witness :
  Js.class_of number_member_store (VRef 6)
  = Some (CArray (VStr "get" :: VStr "a" :: VRef 5 :: []))
  /\ hfree number_member_store 7 "get"
  /\ heval 1 (VStr "a") 7 number_member_store = Ok (VNum 5) number_member_store
  /\ Js.typeof number_member_store (VNum 5) <> "object"
  /\ exists e h2,
       heval 2 (VRef 6) 7 number_member_store = Throw e h2
       /\ NotIndexable Host.number_to_string Host.object_to_string Host.inherited h2 e.
Proof.
  assert (Htype : Js.typeof number_member_store (VNum 5) <> "object")
    by discriminate.
  repeat (split; [first [reflexivity | exact Htype] |]).
  exact (get_not_indexable Host.call Host.number_to_string Host.object_to_string
           Host.syntaxTreeToString Host.inherited 1 number_member_store (VRef 6) 7
           (VStr "a") (VRef 5) [] (VNum 5) number_member_store
           eq_refl eq_refl eq_refl Htype).
Defined.

Lemma get_null_base_not_rejected_witness :
  Js.class_of null_base_store (VRef 6)
  = Some (CArray (VStr "get" :: VStr "a" :: VRef 5 :: []))
  /\ heval 1 (VStr "a") 8 null_base_store = Ok VNull null_base_store
  /\ heval 1 (VRef 5) 8 null_base_store = Ok (VStr "b") null_base_store
  /\ (exists e h3,
        heval 2 (VRef 6) 8 null_base_store = Throw e h3
        /\ get_prop Host.number_to_string Host.object_to_string Host.inherited
             h3 e (VStr "name") = VStr "TypeError"
        /\ ~ NotIndexable Host.number_to_string Host.object_to_string Host.inherited h3 e)
  /\ heval 2 (VRef 7) 8 null_base_store = Ok VUndef null_base_store.
Proof.
  do 3 (split; [reflexivity |]). split.
  - apply (get_null_base_not_rejected Host.call Host.number_to_string
             Host.object_to_string Host.syntaxTreeToString Host.inherited 1
             null_base_store (VRef 6) 8 (VStr "a") (VRef 5) [] (VStr "b")
             null_base_store null_base_store eq_refl eq_refl eq_refl eq_refl eq_refl
             eq_refl).
    by left.
  - apply (get_null_base_not_rejected Host.call Host.number_to_string
             Host.object_to_string Host.syntaxTreeToString Host.inherited 1
             null_base_store (VRef 7) 8 (VStr "a") (VBool true) [] (VBool true)
             null_base_store null_base_store eq_refl eq_refl eq_refl eq_refl eq_refl
             eq_refl); discriminate.
Defined.




Lemma def_member_keeps_ast_witness :
  Js.class_of def_member_store (VRef 8)
  = Some (CArray (VStr "def" :: VRef 6 :: VRef 7 :: []))
  /\ Js.class_of def_member_store (VRef 6)
     = Some (CArray ([VStr "get"; VStr "a"] ++ [VRef 5]))
  /\ hfree def_member_store 10 "def"
  /\ heval 1 (VRef 5) 10 (def_member_store ++ [array [VStr "get"; VStr "a"]])
     = Ok (VStr "b") (def_member_store ++ [array [VStr "get"; VStr "a"]])
  /\ exists h3,
       heval 2 (VRef 8) 10 def_member_store = heval 1 (VRef 11) 10 h3
       /\ Js.class_of h3 (VRef 8) = Js.class_of def_member_store (VRef 8)
       /\ Js.class_of h3 (VRef 6) = Js.class_of def_member_store (VRef 6)
       /\ Js.class_of h3 (VRef 11) = Some (CArray [VStr "get"; VStr "a"; VRef 12])
       /\ Js.class_of h3 (VRef 12) = Some (CArray [VStr "def"; VStr "b"; VRef 7]).
Proof.
  repeat (split; [reflexivity |]).
  destruct (def_member_keeps_ast Host.call Host.number_to_string Host.object_to_string
              Host.syntaxTreeToString Host.inherited 1 def_member_store (VRef 8) 10 6
              (VRef 7) [] [VStr "get"; VStr "a"] (VRef 5) (VStr "b")
              (def_member_store ++ [array [VStr "get"; VStr "a"]])
              eq_refl eq_refl eq_refl eq_refl ltac:(vm_compute; lia))
    as (h3 & Hstep & Hframe & Hkeep & Hnew).
  exists h3. split; [exact Hstep |].
  destruct Hkeep as [Hast Htarget].
  { intros l Hl. by rewrite lookup_app_l. }
  destruct (Hnew eq_refl) as [Hres Hsetter].
  repeat split; assumption.
Defined.

(** The whole evaluation of [a.b = 'hi'], twice over the same tree: the
    same value both times, and the tree as it was. *)
Example def_member_twice :
  exists h1 h2,
    heval 3 (VRef 8) 10 def_member_store = Ok (VStr "hi") h1
    /\ Js.class_of h1 (VRef 8) = Js.class_of def_member_store (VRef 8)
    /\ Js.class_of h1 (VRef 6) = Js.class_of def_member_store (VRef 6)
    /\ Js.class_of h1 (VRef 5) = Js.class_of def_member_store (VRef 5)
    /\ heval 3 (VRef 8) 10 h1 = Ok (VStr "hi") h2.
Proof. eexists _, _. repeat split; vm_compute; reflexivity. Qed.

Lemma obj_skips_entry_witness :
  Js.class_of obj_store (VRef 7)
  = Some (CArray (VStr "obj" :: [VRef 5] ++ VNum 5 :: [VRef 6]))
  /\ Js.class_of obj_store (VRef 8) = Some (CArray (VStr "obj" :: [VRef 5] ++ [VRef 6]))
  /\ hfree obj_store 9 "obj"
  /\ heval 2 (VRef 7) 9 obj_store = heval 2 (VRef 8) 9 obj_store.
Proof.
  repeat (split; [reflexivity |]).
  apply (obj_skips_entry Host.call Host.number_to_string Host.object_to_string
           Host.syntaxTreeToString Host.inherited 1 obj_store (VRef 7) (VRef 8) 9
           [VRef 5] [VRef 6] (VNum 5) eq_refl eq_refl eq_refl).
  intros h1 _. reflexivity.
Defined.


Lemma precedence_groups_tighter_operator_witness :
  Precedence.is_binary Rules.plus "+"
  /\ Precedence.is_binary Rules.times "*"
  /\ r_power Rules.plus < r_power Rules.times
  /\ Parser.parse_tokens
       [tok Rules.symbol "a"; tok Rules.plus "+"; tok Rules.symbol "b";
        tok Rules.times "*"; tok Rules.symbol "c"]
     = Parsed (EList [EStr "+"; EStr "a"; EList [EStr "*"; EStr "b"; EStr "c"]]) [].
Proof.
  assert (Hplus : Precedence.is_binary Rules.plus "+")
    by (split; [reflexivity | vm_compute; lia]).
  assert (Htimes : Precedence.is_binary Rules.times "*")
    by (split; [reflexivity | vm_compute; lia]).
  assert (Hlt : r_power Rules.plus < r_power Rules.times) by (vm_compute; lia).
  assert (Hop : forall s, Precedence.is_operand (tok Rules.symbol s) (EStr (Lex.trim s))).
  { intros s. eexists. repeat split; reflexivity. }
  repeat (split; [assumption |]).
  exact (proj1 precedence_groups_tighter_operator
           (tok Rules.plus "+") (tok Rules.times "*")
           (tok Rules.symbol "a") (tok Rules.symbol "b") (tok Rules.symbol "c")
           "+" "*" (EStr "a") (EStr "b") (EStr "c")
           Hplus Htimes Hlt (Hop "a") (Hop "b") (Hop "c")).
Defined.

(** *** Inputs on which the specification's wording does not hold *)




(** The name after [&] is itself visited as a plain symbol, which
    rebinds it to the single argument at its own position. *)
Example rest_marker_overwritten :
  Host.run_tree 10 rest_marker_call = Some (VNum 3).
Proof. vm_compute. reflexivity. Qed.

End Instances.

(** * Further properties: the evaluator, the rule table, the tools *)

(** ** Array indices as numbers *)

Section Indices.

Lemma digits2_size (p : positive) : digits2_pos p = Pos.size p.
Proof. induction p; simpl; congruence. Qed.

Lemma div_eucl_one (x : Z) : Z.div_eucl x 1 = (x, 0%Z).
Proof.
  pose proof (Z.div_1_r x) as Hq. pose proof (Z.mod_1_r x) as Hr.
  unfold Z.div, Z.modulo in Hq, Hr. destruct (Z.div_eucl x 1). simpl in *. congruence.
Qed.

Lemma size_bound (p : positive) :
  (Zpos p < 4294967296)%Z -> (Pos.size p <= 32)%positive.
Proof.
  intros Hp. pose proof (Pos.size_le p) as Hle.
  destruct (Pos.leb_spec (Pos.size p) 32) as [H | H]; [exact H | exfalso].
  assert (H33 : (2 ^ 33 <= 2 ^ Zpos (Pos.size p))%Z) by (apply Z.pow_le_mono_r; lia).
  assert (Hz : (Zpos (2 ^ Pos.size p) <= Zpos p~0)%Z) by lia.
  rewrite Pos2Z.inj_pow in Hz. change (2 ^ 33)%Z with 8589934592%Z in H33. lia.
Qed.

Lemma shiftl_pos (p s : positive) :
  Z.shiftl (Zpos p) (Zpos s) = Zpos (Pos.iter xO p s).
Proof.
  unfold Z.shiftl. symmetry. apply (Pos.iter_swap_gen _ _ Zpos xO (Z.mul 2)). reflexivity.
Qed.

Lemma digits2_shift (p s : positive) :
  digits2_pos (Pos.iter xO p s) = (digits2_pos p + s)%positive.
Proof.
  induction s as [| s IH] using Pos.peano_ind.
  - simpl. lia.
  - rewrite Pos.iter_succ. simpl. rewrite IH. lia.
Qed.

Lemma SFdiv_of_pos (p : positive) :
  (Zpos p < 4294967296)%Z ->
  exists k q,
    SFdiv prec emax (S754_finite false p 0) (S754_finite false 1 0)
    = S754_finite false q (Zneg k)
    /\ valid_binary (S754_finite false q (Zneg k)) = true
    /\ Zpos q = (Zpos p * 2 ^ Zpos k)%Z.
Proof.
  intros Hp. apply size_bound in Hp. rewrite <- digits2_size in Hp.
  set (d := digits2_pos p) in *.
  set (k := (53 - d)%positive).
  exists k, (Pos.iter xO p k).
  assert (Hk : (Zpos k = 53 - Zpos d)%Z) by lia.
  assert (Hdig : forall s, Zdigits2 (Zpos (Pos.iter xO p s)) = (Zpos d + Zpos s)%Z).
  { intros s. cbn [Zdigits2]. rewrite digits2_shift. fold d. lia. }
  split; [| split].
  - unfold SFdiv, SFdiv_core_binary.
    change (Zdigits2 (Zpos p)) with (Zpos d). change (Zdigits2 1) with 1%Z.
    replace (fexp prec emax (Zpos d + 0 - (1 + 0)) `min` (0 - 0))%Z
      with (Zneg (Pos.succ k)) by (unfold fexp, SpecFloat.emin, prec, emax; lia).
    change (0 - 0 - Zneg (Pos.succ k))%Z with (Zpos (Pos.succ k)). cbv iota.
    rewrite shiftl_pos, div_eucl_one.
    change (new_location 1 0) with loc_Exact.
    unfold binary_round_aux, shr_fexp.
    rewrite Hdig.
    replace (fexp prec emax (Zpos d + Zpos (Pos.succ k) + Zneg (Pos.succ k))
             - Zneg (Pos.succ k))%Z
      with 1%Z by (unfold fexp, SpecFloat.emin, prec, emax; lia).
    rewrite Pos.iter_succ. cbn [shr shr_record_of_loc SpecFloat.iter_pos shr_1 orb
                                shr_m loc_of_shr_record round_nearest_even].
    rewrite Hdig.
    replace (fexp prec emax (Zpos d + Zpos k + (Zneg (Pos.succ k) + 1))
             - (Zneg (Pos.succ k) + 1))%Z
      with 0%Z by (unfold fexp, SpecFloat.emin, prec, emax; lia).
    cbn [shr shr_m].
    replace (Zneg (Pos.succ k) + 1)%Z with (Zneg k) by lia.
    replace (Zneg k <=? emax - prec)%Z with true
      by (symmetry; apply Z.leb_le; unfold emax, prec; lia).
    reflexivity.
  - unfold SpecFloat.valid_binary, bounded, canonical_mantissa.
    rewrite digits2_shift. fold d. apply andb_true_iff. split.
    + apply Z.eqb_eq. unfold fexp, SpecFloat.emin, prec, emax. lia.
    + apply Z.leb_le. unfold emax, prec. lia.
  - rewrite <- shiftl_pos. apply Z.shiftl_mul_pow2. lia.
Qed.

Lemma index_of_nat (i : nat) :
  (Z.of_nat i < 4294967295)%Z -> Js.index_of_float (Num.of_nat i) = Some i.
Proof.
  intros Hi. unfold Num.of_nat, Num.of_decimal.
  destruct (N.of_nat i) as [| p] eqn:Hn.
  - assert (i = 0) as -> by lia. vm_compute. reflexivity.
  - destruct (SFdiv_of_pos p) as (k & q & Hdiv & Hvalid & Hq); [lia |].
    cbv iota beta. rewrite Hdiv. unfold Js.index_of_float.
    rewrite (Prim2SF_SF2Prim _ Hvalid).
    rewrite Hq, Z.mod_mul, Z.div_mul by lia.
    cbn [Z.eqb]. replace (Zpos p <? 4294967295)%Z with true by (symmetry; apply Z.ltb_lt; lia).
    f_equal. lia.
Qed.

End Indices.

(** ** The evaluator: symbols, forms and calls *)

Section Evaluation.

Variable host_call : string -> Value -> list Value -> M Value.
Variable number_to_string : float -> string.
Variable object_to_string : Heap -> loc -> string.
Variable syntaxTreeToString : Heap -> Value -> string.
Variable inherited : Heap -> Value -> string -> Value.

Abbreviation eval :=
  (evaluate host_call number_to_string object_to_string syntaxTreeToString inherited).
Abbreviation message := (has_message number_to_string object_to_string inherited).

Lemma env_parent_allocated (h : Heap) (env p : loc) :
  env_parent h env = Some p -> env < length h.
Proof.
  unfold env_parent, Js.obj_at. intros H.
  destruct (h !! env) eqn:Hl; [by eapply lookup_lt_Some | discriminate].
Qed.

Lemma scope_chain_unique (h : Heap) (env : loc) (c1 c2 : list loc) :
  scope_chain h env c1 -> scope_chain h env c2 -> c1 = c2.
Proof.
  intros H1. revert c2. induction H1 as [env Htop | env p c Hp _ IH]; intros c2 H2.
  - inversion H2; subst; [reflexivity | congruence].
  - inversion H2 as [? Htop | ? p' c' Hp' Hc']; subst; [congruence |].
    assert (p' = p) as -> by congruence. f_equal. by apply IH.
Qed.

Lemma scope_chain_from (h : Heap) (env l : loc) (c : list loc) :
  scope_chain h env c -> l ∈ c ->
  exists c', scope_chain h l c' /\ length c' <= length c.
Proof.
  induction 1 as [env Htop | env p c Hp Hc IH]; intros Hin.
  - apply list_elem_of_singleton in Hin as ->. exists [env]. split; [by constructor | done].
  - apply elem_of_cons in Hin as [-> | Hin].
    + exists (env :: c). split; [by econstructor | done].
    + destruct (IH Hin) as (c' & Hc' & Hlen). exists c'. split; [done | simpl; lia].
Qed.

Lemma scope_chain_NoDup (h : Heap) (env : loc) (c : list loc) :
  scope_chain h env c -> NoDup c.
Proof.
  induction 1 as [env Htop | env p c Hp Hc IH].
  - apply NoDup_singleton.
  - apply NoDup_cons. split; [| done]. intros Hin.
    destruct (scope_chain_from _ _ _ _ Hc Hin) as (c' & Hc' & Hlen).
    assert (c' = env :: c) as -> by (eapply scope_chain_unique; [done | by econstructor]).
    simpl in Hlen. lia.
Qed.

Lemma scope_chain_length (h : Heap) (env : loc) (c : list loc) :
  scope_chain h env c -> length c <= S (length h).
Proof.
  intros Hc.
  assert (Hinit : exists init top, c = init ++ [top] /\ forall l, l ∈ init -> l < length h).
  { induction Hc as [env Htop | env p c Hp Hc (init & top & -> & Hlt)].
    - exists [], env. split; [done |]. intros l Hl. by apply elem_of_nil in Hl.
    - exists (env :: init), top. split; [done |].
      intros l [-> | Hl]%elem_of_cons; [by eapply env_parent_allocated | by apply Hlt]. }
  destruct Hinit as (init & top & -> & Hlt).
  apply scope_chain_NoDup in Hc. apply NoDup_app in Hc as (Hnd & _ & _).
  rewrite length_app. simpl.
  assert (length init <= length (seq 0 (length h))); [| rewrite length_seq in *; lia].
  apply NoDup_incl_length; [by apply NoDup_ListNoDup |].
  intros l Hl. apply in_seq. apply list_elem_of_In in Hl. specialize (Hlt _ Hl). lia.
Qed.

Lemma lookup_symbol_chain (fuel : nat) (h : Heap) (env : loc) (c : list loc)
    (name : string) :
  scope_chain h env c -> length c <= S fuel ->
  lookup_symbol fuel name env h =
  match first_binding h name (c ++ [root]) with
  | Some v => Ok v h
  | None => env_throw (undefined_symbol name) h
  end.
Proof.
  intros Hc. revert fuel. induction Hc as [env Htop | env p c Hp Hc IH]; intros fuel Hlen.
  - destruct fuel; simpl; unfold with_heap; rewrite Htop;
      destruct (o_props (Js.obj_at h env) !! name); try reflexivity;
      destruct (o_props (Js.obj_at h root) !! name); reflexivity.
  - destruct fuel as [| fuel].
    { apply scope_chain_length in Hc as Hb. destruct Hc; simpl in Hlen; lia. }
    simpl. unfold with_heap at 1. rewrite Hp.
    destruct (o_props (Js.obj_at h env) !! name); [reflexivity |].
    apply IH. simpl in Hlen. lia.
Qed.

Lemma evaluate_symbol (n : nat) (h : Heap) (env : loc) (c : list loc) (name : string) :
  scope_chain h env c ->
  name <> "local" -> name <> "global" ->
  eval (S n) (VStr name) env h =
  match first_binding h name (c ++ [root]) with
  | Some v => Ok v h
  | None => env_throw (undefined_symbol name) h
  end.
Proof.
  intros Hc Hlocal Hglobal.
  rewrite <- (lookup_symbol_chain _ _ _ _ _ Hc (scope_chain_length _ _ _ Hc)).
  simpl. unfold evaluate_turn, with_heap. cbn [Js.is_array Js.class_of negb].
  unfold evaluateExpression, with_heap. cbn [Js.is_array Js.class_of].
  apply String.eqb_neq in Hlocal, Hglobal. by rewrite Hlocal, Hglobal.
Qed.

(** X1. A symbol other than [local] and [global] evaluates to its innermost
    binding: the first own binding along the scopes from the current
    one up through its parents and then the root. When none of them
    binds it, evaluation throws the error [Undefined symbol] with the
    name between double quotes. [local] is the current scope and
    [global] its global scope, whatever is bound under these names. *)
Theorem symbol_resolution (n : nat) (h : Heap) (env : loc) (c : list loc) :
  scope_chain h env c ->
  (forall name, name <> "local" -> name <> "global" ->
     (forall v, first_binding h name (c ++ [root]) = Some v ->
        eval (S n) (VStr name) env h = Ok v h)
     /\ (first_binding h name (c ++ [root]) = None ->
         exists e h', eval (S n) (VStr name) env h = Throw e h'
                      /\ message h' e (undefined_symbol name)))
  /\ eval (S n) (VStr "local") env h = Ok (VRef env) h
  /\ eval (S n) (VStr "global") env h
     = Ok (from_option VRef VUndef (env_global h env)) h.
Proof.
  intros Hc. split; [| split; reflexivity].
  intros name Hlocal Hglobal.
  rewrite (evaluate_symbol _ _ _ _ _ Hc Hlocal Hglobal).
  split.
  - by intros v ->.
  - intros ->. apply env_throw_spec.
Qed.

Abbreviation macro_free := (no_macro number_to_string object_to_string inherited).
Abbreviation form := (evaluate_form host_call number_to_string object_to_string
                        syntaxTreeToString inherited).
Abbreviation invoke :=
  (eval_invoke host_call number_to_string object_to_string syntaxTreeToString inherited).

Arguments get_prop : simpl never.
Arguments set_prop : simpl never.
Arguments env_throw : simpl never.

Lemma class_array_allocated (h : Heap) (l : loc) (es : list Value) :
  Js.class_of h (VRef l) = Some (CArray es) -> l < length h.
Proof.
  unfold Js.class_of, Js.obj_at. intros H.
  destruct (h !! l) eqn:Hl; [by eapply lookup_lt_Some | discriminate].
Qed.

Lemma class_of_grow (h h' : Heap) (v : Value) (es : list Value) :
  Js.class_of h v = Some (CArray es) -> Js.class_of (h ++ h') v = Some (CArray es).
Proof.
  destruct v as [| | | | l |]; try discriminate. intros H.
  pose proof (class_array_allocated _ _ _ H) as Hl.
  unfold Js.class_of in *. by rewrite obj_at_old.
Qed.

Lemma evaluate_atom (n : nat) (h : Heap) (v : Value) (env : loc) :
  Js.is_array h v = false -> (forall s, v <> VStr s) ->
  eval (S n) v env h = Ok v h.
Proof.
  intros Harr Hstr. simpl. unfold evaluate_turn, with_heap. rewrite Harr. cbn [negb].
  unfold evaluateExpression, with_heap. rewrite Harr.
  destruct v; try reflexivity. by destruct (Hstr s).
Qed.

Lemma evaluate_literal (n : nat) (h : Heap) (v : Value) (env : loc) :
  self_evaluating v = true -> eval (S n) v env h = Ok v h.
Proof. intros Hv. apply evaluate_atom; by destruct v. Qed.

Lemma dispatch_invoke ev (head ast : Value) (env : loc) :
  (forall s, head = VStr s -> special_form s = false) ->
  dispatch host_call number_to_string object_to_string syntaxTreeToString inherited
    ev head ast env
  = invoke ev ast env.
Proof.
  intros Hs. unfold dispatch. destruct head as [| | | s | |]; try reflexivity.
  specialize (Hs s eq_refl). unfold special_form in Hs. cbn [existsb] in Hs.
  repeat (apply orb_false_elim in Hs as [? Hs]).
  cbn [Js.is_str].
  repeat match goal with H : String.eqb s _ = false |- _ => rewrite H; clear H end.
  reflexivity.
Qed.

(** A list whose head is not a string is not macro-expanded and goes
    to the invocation. *)
Lemma evaluate_headless (n : nat) (h : Heap) (ast : Value) (env : loc)
    (es : list Value) :
  Js.class_of h ast = Some (CArray es) ->
  (forall s, default VUndef (es !! 0) <> VStr s) ->
  eval (S n) ast env h = invoke (eval n) ast env h.
Proof.
  intros Hast Hhead. simpl. unfold evaluate_turn, with_heap at 1.
  rewrite (class_array_is_array _ _ _ Hast). cbn [negb].
  assert (Hexp : expandMacro host_call number_to_string object_to_string
                   syntaxTreeToString inherited (eval n) n ast env h = Ok ast h).
  { assert (Hty : String.eqb (Js.typeof h (Js.nth h ast 0)) "string" = false).
    { rewrite (class_array_nth _ _ _ 0 Hast).
      destruct (default VUndef (es !! 0)) as [| | | s | l |] eqn:Hd; try reflexivity.
      - by destruct (Hhead s).
      - unfold Js.typeof. by destruct (Js.is_function _ _). }
    destruct n; simpl; unfold with_heap; rewrite Hty, andb_false_r; reflexivity. }
  unfold bind at 1. rewrite Hexp. unfold with_heap at 1.
  rewrite (class_array_is_array _ _ _ Hast). cbn [negb].
  apply (f_equal (fun m => m h)), dispatch_invoke.
  intros s Hs. rewrite (class_array_nth _ _ _ 0 Hast) in Hs. by destruct (Hhead s).
Qed.

(** X2. A quote form (head [`] or [expr]) returns its operand unevaluated,
    and [eva] of a quote form evaluates the quoted tree in the current
    scope and store. *)
Theorem eva_of_quote (n : nat) (h : Heap) (ast : Value) (env : loc) (q : loc)
    (quote : string) (x : Value) (es es' : list Value) :
  Js.class_of h ast = Some (CArray (VStr "eva" :: VRef q :: es)) ->
  Js.class_of h (VRef q) = Some (CArray (VStr quote :: x :: es')) ->
  quote = "`" \/ quote = "expr" ->
  macro_free h env "eva" -> macro_free h env quote ->
  eval (S n) (VRef q) env h = Ok x h
  /\ eval (S (S n)) ast env h = eval (S n) x env h.
Proof.
  intros Hast Hq Hquote Hfree Hfreeq.
  assert (Hquoted : forall m, eval (S m) (VRef q) env h = Ok x h).
  { intros m. rewrite (form _ _ _ _ _ _ Hq Hfreeq).
    destruct Hquote as [-> | ->]; unfold dispatch; cbn -[Js.nth];
      unfold with_heap, ret; by rewrite (class_array_nth _ _ _ 1 Hq). }
  split; [apply Hquoted |].
  rewrite (form _ _ _ _ _ _ Hast Hfree).
  unfold dispatch. cbn -[Js.nth evaluate]. unfold with_heap, bind.
  rewrite (class_array_nth _ _ _ 1 Hast). cbn [lookup list_lookup default from_option id].
  by rewrite Hquoted.
Qed.

(** *** Lists *)

Lemma obj_at_alloc_here (h : Heap) (o : JSObject) :
  Js.obj_at (h ++ [o]) (length h) = o.
Proof. apply obj_at_alloc. Qed.

Lemma insert_alloc (h : Heap) (o o' : JSObject) :
  <[length h := o']> (h ++ [o]) = h ++ [o'].
Proof.
  replace (length h) with (length h + 0) by lia.
  by rewrite insert_app_r.
Qed.

Lemma eval_list_literals ev (env : loc) (h : Heap) (acc es : list Value) :
  (forall v h', v ∈ es -> ev v env h' = Ok v h') ->
  forallb self_evaluating es = true ->
  for_each (eval_list_item ev env (length h)) es (h ++ [mkObj (CArray acc) ∅])
  = Ok tt (h ++ [mkObj (CArray (acc ++ es)) ∅]).
Proof.
  revert acc. induction es as [| v es IH]; intros acc Hev Hlit.
  - by rewrite app_nil_r.
  - cbn [forallb] in Hlit. apply andb_true_iff in Hlit as [Hv Hes].
    cbn [for_each]. unfold bind at 1, eval_list_item, with_heap at 1.
    assert (Harr : Js.is_array (h ++ [mkObj (CArray acc) ∅]) v = false) by (by destruct v).
    rewrite Harr. cbn [andb]. unfold bind at 1.
    rewrite Hev by apply list_elem_of_here.
    unfold array_push, write. rewrite obj_at_alloc_here. cbn [o_class o_props].
    rewrite insert_alloc.
    rewrite IH; [by rewrite <- app_assoc | | done].
    intros w h' Hw. apply Hev. by apply list_elem_of_further.
Qed.

(** X3. A [list] form whose elements are numbers, booleans or nil evaluates
    to a new list of exactly these elements; nothing else in the store
    changes. *)
Theorem list_of_literals (n : nat) (h : Heap) (ast : Value) (env : loc)
    (es : list Value) :
  Js.class_of h ast = Some (CArray (VStr "list" :: es)) ->
  macro_free h env "list" ->
  forallb self_evaluating es = true ->
  eval (S (S n)) ast env h = Ok (VRef (length h)) (h ++ [mkObj (CArray es) ∅]).
Proof.
  intros Hast Hfree Hlit.
  rewrite (form _ _ _ _ _ _ Hast Hfree).
  change (dispatch _ _ _ _ _ _ (VStr "list") ast env h) with
    (eval_list (eval (S n)) ast env h).
  unfold eval_list, with_heap. rewrite (class_array_elems _ _ _ Hast). cbn [drop].
  unfold bind at 1, alloc at 1. unfold bind at 1.
  rewrite (eval_list_literals _ _ _ [] es); [reflexivity | | done].
  intros v h' Hv. apply evaluate_literal.
  rewrite forallb_forall in Hlit. apply Hlit. by apply list_elem_of_In.
Qed.

(** *** The elements of a form, evaluated *)

Lemma set_prop_index (h : Heap) (l : loc) (es : list Value) (ps : gmap string Value)
    (key x : Value) (i : nat) :
  l < length h ->
  Js.obj_at h l = mkObj (CArray es) ps ->
  Js.index_of_key key = Some i ->
  set_prop number_to_string object_to_string (VRef l) key x h
  = Ok tt (<[l := mkObj (CArray (array_put es i x)) ps]> h).
Proof.
  intros Hl Ho Hk. unfold set_prop, with_heap. by rewrite Ho; cbn [o_class o_props]; rewrite Hk.
Qed.

(** The elements of a form evaluated one by one, when none of the
    evaluations has an effect. *)
Lemma map_evaluate_pure ev (h : Heap) (ast : Value) (env : loc)
    (es todo : list Value) (dv tv : list Value) :
  Js.class_of h ast = Some (CArray es) ->
  (Z.of_nat (length es) < 4294967295)%Z ->
  es = take (length dv) es ++ todo ->
  length dv <= length es ->
  Forall2 (fun e v => forall partial,
             ev e env (h ++ [mkObj (CArray partial) ∅])
             = Ok v (h ++ [mkObj (CArray partial) ∅])) todo tv ->
  map_evaluate number_to_string object_to_string ev ast env (length h)
    (length dv) (length todo)
    (h ++ [mkObj (CArray (dv ++ replicate (length todo) VUndef)) ∅])
  = Ok tt (h ++ [mkObj (CArray (dv ++ tv)) ∅]).
Proof.
  intros Hast Hlen Hes Hdv Hpure. revert dv Hes Hdv.
  induction Hpure as [| e v todo tv He _ IH]; intros dv Hes Hdv.
  - by rewrite !app_nil_r.
  - cbn [length map_evaluate replicate]. unfold bind at 1, with_heap at 1.
    rewrite (class_array_elems _ _ _ (class_of_grow _ _ _ _ Hast)).
    assert (Hi : es !! length dv = Some e).
    { rewrite Hes. rewrite lookup_app_r by (rewrite length_take; lia).
      rewrite length_take. by replace (length dv - length dv `min` length es) with 0 by lia. }
    rewrite Hi. unfold bind at 1. rewrite He.
    assert (Hlt : length dv < length es) by (by eapply lookup_lt_Some).
    rewrite (set_prop_index _ _ (dv ++ VUndef :: replicate (length todo) VUndef) ∅ _ _
               (length dv));
      [| rewrite length_app; simpl; lia | apply obj_at_alloc
       | apply index_of_nat; lia].
    rewrite insert_alloc.
    assert (Hput : array_put (dv ++ VUndef :: replicate (length todo) VUndef) (length dv) v
                   = (dv ++ [v]) ++ replicate (length todo) VUndef).
    { unfold array_put.
      replace (length dv <? length (dv ++ VUndef :: replicate (length todo) VUndef))%nat with true
        by (symmetry; apply Nat.ltb_lt; rewrite length_app; simpl; lia).
      replace (length dv) with (length dv + 0) at 1 by lia.
      rewrite insert_app_r. by rewrite <- app_assoc. }
    rewrite Hput.
    replace (S (length dv)) with (length (dv ++ [v])) by (rewrite length_app; simpl; lia).
    rewrite IH.
    + by rewrite <- app_assoc.
    + rewrite length_app. cbn [length].
      replace (length dv + 1) with (S (length dv)) by lia.
      rewrite (take_S_r _ _ _ Hi), <- app_assoc. exact Hes.
    + rewrite length_app. simpl. lia.
Qed.

Lemma evaluateExpression_pure ev (h : Heap) (ast : Value) (env : loc)
    (es vs : list Value) :
  Js.class_of h ast = Some (CArray es) ->
  (Z.of_nat (length es) < 4294967295)%Z ->
  Forall2 (fun e v => forall partial,
             ev e env (h ++ [mkObj (CArray partial) ∅])
             = Ok v (h ++ [mkObj (CArray partial) ∅])) es vs ->
  evaluateExpression number_to_string object_to_string ev ast env h
  = Ok (VRef (length h)) (h ++ [mkObj (CArray vs) ∅]).
Proof.
  intros Hast Hlen Hpure. unfold evaluateExpression, with_heap.
  rewrite (class_array_is_array _ _ _ Hast), (class_array_elems _ _ _ Hast).
  unfold bind at 1, alloc at 1. unfold bind at 1.
  pose proof (map_evaluate_pure ev h ast env es es [] vs Hast Hlen eq_refl
                ltac:(simpl; lia) Hpure) as Hmap.
  cbn [length app] in Hmap. by rewrite Hmap.
Qed.


(** *** Symbols in a store that has grown *)

Lemma env_parent_grow (h h' : Heap) (l : loc) :
  l < length h -> env_parent (h ++ h') l = env_parent h l.
Proof. intros Hl. unfold env_parent. by rewrite obj_at_old. Qed.

Lemma scope_chain_grow (h h' : Heap) (env : loc) (c : list loc) :
  scope_chain h env c -> Forall (fun l => l < length h) c ->
  scope_chain (h ++ h') env c.
Proof.
  induction 1 as [env Htop | env p c Hp Hc IH]; intros Hall.
  - apply chain_top. rewrite env_parent_grow; [done |]. by inversion Hall.
  - inversion Hall; subst. apply (chain_up _ env p); [| by apply IH].
    by rewrite env_parent_grow.
Qed.

Lemma first_binding_grow (h h' : Heap) (name : string) (c : list loc) :
  Forall (fun l => l < length h) c ->
  first_binding (h ++ h') name c = first_binding h name c.
Proof.
  induction 1 as [| l c Hl _ IH]; [reflexivity |].
  cbn [first_binding]. by rewrite obj_at_old, IH.
Qed.

Lemma evaluate_symbol_grow (n : nat) (h h' : Heap) (env : loc) (name : string)
    (v : Value) :
  resolves h env name v -> name <> "local" -> name <> "global" ->
  eval (S n) (VStr name) env (h ++ h') = Ok v (h ++ h').
Proof.
  intros (c & Hc & Hall & Hv) Hlocal Hglobal.
  rewrite (evaluate_symbol _ _ _ c); [| | done | done].
  - by rewrite first_binding_grow, Hv.
  - apply scope_chain_grow; [done |]. by apply Forall_app in Hall as [? _].
Qed.


(** *** Binding plain symbols *)

Lemma obj_at_here (h ext : Heap) (o : JSObject) :
  Js.obj_at (h ++ o :: ext) (length h) = o.
Proof. unfold Js.obj_at. by rewrite list_lookup_middle. Qed.

Lemma insert_here (h ext : Heap) (o o' : JSObject) :
  <[length h := o']> (h ++ o :: ext) = h ++ o' :: ext.
Proof.
  replace (length h) with (length h + 0) by lia.
  by rewrite insert_app_r.
Qed.




(** *** Invocation *)

Lemma literals_pure (n : nat) (h : Heap) (env : loc) (es : list Value) :
  forallb self_evaluating es = true ->
  Forall2 (fun e v => forall partial,
             eval (S n) e env (h ++ [mkObj (CArray partial) ∅])
             = Ok v (h ++ [mkObj (CArray partial) ∅])) es es.
Proof.
  induction es as [| e es IH]; intros Hlit; [constructor |].
  cbn [forallb] in Hlit. apply andb_true_iff in Hlit as [He Hes].
  constructor; [| by apply IH]. intros partial. by apply evaluate_literal.
Qed.

(** The elements of an application of a symbol to self-evaluating
    arguments. *)
Lemma application_elements (n : nat) (h : Heap) (ast : Value) (env : loc)
    (f : string) (fv : Value) (args : list Value) :
  Js.class_of h ast = Some (CArray (VStr f :: args)) ->
  (Z.of_nat (S (length args)) < 4294967295)%Z ->
  special_form f = false -> f <> "local" -> f <> "global" ->
  macro_free h env f ->
  resolves h env f fv ->
  forallb self_evaluating args = true ->
  eval (S (S n)) ast env h = invoke (eval (S n)) ast env h
  /\ evaluateExpression number_to_string object_to_string (eval (S n)) ast env h
     = Ok (VRef (length h)) (h ++ [mkObj (CArray (fv :: args)) ∅]).
Proof.
  intros Hast Hlen Hspecial Hlocal Hglobal Hfree Hres Hlit. split.
  - rewrite (form _ _ _ _ _ _ Hast Hfree).
    apply (f_equal (fun m => m h)), dispatch_invoke. by intros s [= <-].
  - apply (evaluateExpression_pure _ _ _ _ _ _ Hast Hlen).
    constructor; [| by apply literals_pure].
    intros partial. by apply evaluate_symbol_grow.
Qed.

(** X4. A form headed by a symbol that is no special form and denotes a host
    function (a function without [lambda] record) calls that function
    on the evaluated arguments, without receiver; the list of the
    evaluated elements is the only object the evaluator adds to the
    store. The arguments are numbers, booleans or nil. *)
Theorem call_host_function (n : nat) (h : Heap) (ast : Value) (env : loc)
    (f : string) (fl : loc) (fid : string) (args : list Value) :
  Js.class_of h ast = Some (CArray (VStr f :: args)) ->
  (Z.of_nat (S (length args)) < 4294967295)%Z ->
  special_form f = false -> f <> "local" -> f <> "global" ->
  macro_free h env f ->
  resolves h env f (VRef fl) ->
  o_class (Js.obj_at h fl) = CFunction (FHost fid) ->
  o_props (Js.obj_at h fl) !! "lambda" = None ->
  (forall h', inherited h' (VRef fl) "lambda" = VUndef) ->
  forallb self_evaluating args = true ->
  eval (S (S n)) ast env h
  = host_call fid VUndef args (h ++ [mkObj (CArray (VRef fl :: args)) ∅]).
Proof.
  intros Hast Hlen Hspecial Hlocal Hglobal Hfree Hres Hclass Hown Hinh Hlit.
  destruct (application_elements n _ _ _ _ _ _ Hast Hlen Hspecial Hlocal Hglobal
              Hfree Hres Hlit) as [-> Hel].
  unfold eval_invoke, bind at 1. rewrite Hel. unfold with_heap at 1.
  set (h1 := h ++ [mkObj (CArray (VRef fl :: args)) ∅]).
  assert (Hfl : fl < length h).
  { unfold Js.obj_at in Hclass. destruct (h !! fl) eqn:Hl; [by eapply lookup_lt_Some | discriminate]. }
  assert (Hobj : Js.obj_at h1 fl = Js.obj_at h fl) by (by apply obj_at_old).
  assert (Hf : Js.nth h1 (VRef (length h)) 0 = VRef fl).
  { unfold Js.nth, Js.elems, Js.class_of, h1. by rewrite obj_at_alloc. }
  assert (Hgiven : Js.elems h1 (VRef (length h)) = VRef fl :: args).
  { unfold Js.elems, Js.class_of, h1. by rewrite obj_at_alloc. }
  clearbody h1.
  rewrite Hf, Hgiven. cbn [Js.is_null drop].
  unfold Js.is_array, Js.is_function, Js.class_of. rewrite Hobj, Hclass. cbn [andb].
  unfold get_prop at 1. cbv zeta. cbn [to_property_key].
  rewrite Hobj, Hclass. cbv beta iota. rewrite Hown. cbn [default from_option id].
  rewrite Hinh. cbn [Js.truthy].
  unfold call, with_heap.
  assert (Hb : bound_target (length h1) h1 (VRef fl) VUndef = (VRef fl, VUndef)).
  { destruct (length h1); simpl; unfold Js.class_of; by rewrite ?Hobj, ?Hclass. }
  rewrite Hb. unfold Js.class_of. by rewrite Hobj, Hclass.
Qed.

Lemma obj_allocated (h : Heap) (l : loc) (c : Class) :
  o_class (Js.obj_at h l) = c -> c <> CObject -> l < length h.
Proof.
  unfold Js.obj_at. intros Hc Hne.
  destruct (h !! l) eqn:Hl; [by eapply lookup_lt_Some | by destruct Hne].
Qed.




(** X7. A form whose elements are all numbers, booleans or nil is no
    application: it evaluates to its first element, and to nil when it
    is empty. *)
Theorem non_callable_head (n : nat) (h : Heap) (ast : Value) (env : loc)
    (es : list Value) :
  Js.class_of h ast = Some (CArray es) ->
  (Z.of_nat (length es) < 4294967295)%Z ->
  forallb self_evaluating es = true ->
  eval (S (S n)) ast env h
  = Ok (default VUndef (es !! 0)) (h ++ [mkObj (CArray es) ∅]).
Proof.
  intros Hast Hlen Hlit.
  assert (Hhead : self_evaluating (default VUndef (es !! 0)) = true).
  { destruct es as [| e es]; [reflexivity |]. cbn [forallb] in Hlit.
    by apply andb_true_iff in Hlit as [? _]. }
  rewrite (evaluate_headless _ _ _ _ _ Hast)
    by (intros s Hs; rewrite Hs in Hhead; discriminate).
  unfold eval_invoke, bind at 1.
  rewrite (evaluateExpression_pure _ _ _ _ _ _ Hast Hlen (literals_pure _ _ _ _ Hlit)).
  unfold with_heap.
  assert (Hf : Js.nth (h ++ [mkObj (CArray es) ∅]) (VRef (length h)) 0
               = default VUndef (es !! 0)).
  { unfold Js.nth, Js.elems, Js.class_of. by rewrite obj_at_alloc. }
  rewrite Hf. by destruct (default VUndef (es !! 0)).
Qed.

(** *** Local bindings *)




(** *** Object literals *)

Lemma eval_obj_pairs (n : nat) (h : Heap) (env : loc) (entries : list Value)
    (kvs : list (string * Value)) (m : gmap string Value) :
  Forall2 (entry_denotes h env) entries kvs ->
  for_each (eval_obj_pair number_to_string object_to_string (eval (S n)) env (length h))
    entries (h ++ [mkObj CObject m])
  = Ok tt (h ++ [mkObj CObject (bind_pairs kvs m)]).
Proof.
  intros Hall. revert m. induction Hall as [| e [k v] entries kvs He _ IH]; intros m;
    [reflexivity |].
  cbn [for_each bind_pairs fst snd]. unfold bind at 1, eval_obj_pair, with_heap at 1.
  assert (Hstep : forall (right : Value),
    eval (S n) right env (h ++ [mkObj CObject m]) = Ok v (h ++ [mkObj CObject m]) ->
    (key <- ret (VStr k) ;;
     v0 <- eval (S n) right env ;;
     set_prop number_to_string object_to_string (VRef (length h)) key v0)
      (h ++ [mkObj CObject m])
    = Ok tt (h ++ [mkObj CObject (<[k := v]> m)])).
  { intros right Hright. unfold bind at 1, ret at 1. unfold bind at 1. rewrite Hright.
    rewrite set_prop_named by (by rewrite obj_at_alloc).
    by rewrite obj_at_alloc, insert_alloc. }
  destruct He as [(Hc & Hlit & Hnn) | (Hc & Hres & Hlocal & Hglobal)]; cbn [fst snd] in *.
  - pose proof (class_of_grow _ [mkObj CObject m] _ _ Hc) as Hc'.
    destruct e as [| | | | l |]; try discriminate.
    rewrite (class_array_is_array _ _ _ Hc'), !(class_array_nth _ _ _ _ Hc').
    cbn [Js.is_null orb negb lookup list_lookup default from_option id Js.typeof
         String.eqb Ascii.eqb Bool.eqb].
    replace (Js.is_null v) with false by (by destruct v).
    rewrite Hstep by (by apply evaluate_literal). apply IH.
  - pose proof (class_of_grow _ [mkObj CObject m] _ _ Hc) as Hc'.
    destruct e as [| | | | l |]; try discriminate.
    rewrite (class_array_is_array _ _ _ Hc'), !(class_array_nth _ _ _ _ Hc').
    cbn [Js.is_null orb negb lookup list_lookup default from_option id Js.typeof
         String.eqb Ascii.eqb Bool.eqb Js.is_array Js.class_of andb].
    rewrite Hstep by (by apply evaluate_symbol_grow). apply IH.
Qed.

(** X9. An [obj] form whose entries are pairs [[k, v]] of a name and a number
    or boolean, or shorthands [[k]] of a symbol in scope, evaluates to
    a new object that binds each name to its value, a later entry for
    a name overriding an earlier one. The name [__proto__], which is
    no own property of a plain object, is left out. *)
Theorem obj_of_pairs (n : nat) (h : Heap) (ast : Value) (env : loc)
    (entries : list Value) (kvs : list (string * Value)) :
  Js.class_of h ast = Some (CArray (VStr "obj" :: entries)) ->
  macro_free h env "obj" ->
  Forall2 (entry_denotes h env) entries kvs ->
  Forall (fun kv => kv.1 <> "__proto__") kvs ->
  eval (S (S n)) ast env h
  = Ok (VRef (length h)) (h ++ [mkObj CObject (bind_pairs kvs ∅)]).
Proof.
  intros Hast Hfree Hall _.
  rewrite (form _ _ _ _ _ _ Hast Hfree).
  change (dispatch _ _ _ _ _ _ (VStr "obj") ast env h) with
    (eval_obj number_to_string object_to_string (eval (S n)) ast env h).
  rewrite (eval_obj_unfold _ _ _ _ _ _ _ Hast). unfold bind at 1, Js.empty_object.
  by rewrite (eval_obj_pairs _ _ _ _ _ ∅ Hall).
Qed.

(** *** Sequences *)

(** X10. A [do] form without operand returns nil. Otherwise the operands
    before the last are evaluated for their effects only, their values
    are dropped, and the form evaluates as its last operand does in the
    same scope. For operands that are numbers, booleans or nil the
    effect is two lists in the store: the slice and its values. *)
Theorem do_form (n : nat) (h : Heap) (ast : Value) (env : loc) (es : list Value) :
  Js.class_of h ast = Some (CArray (VStr "do" :: es)) ->
  macro_free h env "do" ->
  (es = [] -> eval (S n) ast env h = Ok VUndef h)
  /\ (forall (effects : list Value) (x : Value),
        es = effects ++ [x] ->
        (Z.of_nat (length effects) < 4294967295)%Z ->
        forallb self_evaluating effects = true ->
        eval (S (S n)) ast env h
        = eval (S n) x env
            (h ++ [mkObj (CArray effects) ∅; mkObj (CArray effects) ∅])).
Proof.
  intros Hast Hfree. split.
  - intros ->. rewrite (form _ _ _ _ _ _ Hast Hfree).
    change (dispatch _ _ _ _ _ _ (VStr "do") ast env h) with
      (eval_do number_to_string object_to_string (eval n) ast env h).
    unfold eval_do, with_heap. by rewrite (class_array_elems _ _ _ Hast).
  - intros effects x -> Hlen Hlit. rewrite (form _ _ _ _ _ _ Hast Hfree).
    change (dispatch _ _ _ _ _ _ (VStr "do") ast env h) with
      (eval_do number_to_string object_to_string (eval (S n)) ast env h).
    unfold eval_do, with_heap at 1. rewrite (class_array_elems _ _ _ Hast).
    cbn [length drop]. rewrite length_app. cbn [length].
    replace (S (length effects + 1) - 1) with (S (length effects)) by lia.
    cbn [Nat.eqb]. replace (S (length effects) - 1) with (length effects) by lia.
    rewrite drop_0, take_app_length.
    unfold bind at 1, new_array, bind at 1, alloc at 1, ret at 1. unfold bind at 1.
    assert (Heff : Js.class_of (h ++ [mkObj (CArray effects) ∅]) (VRef (length h))
                   = Some (CArray effects)).
    { unfold Js.class_of. by rewrite obj_at_alloc. }
    rewrite (evaluateExpression_pure _ _ _ _ _ _ Heff Hlen (literals_pure _ _ _ _ Hlit)).
    unfold with_heap.
    rewrite (class_array_nth _ _ _ _ (class_of_grow _ _ _ _ (class_of_grow _ _ _ _ Hast))).
    rewrite lookup_cons_ne_0 by lia. cbn [Nat.pred].
    rewrite lookup_app_r, Nat.sub_diag by lia. cbn [lookup list_lookup default from_option id].
    by rewrite <- app_assoc.
Qed.

(** *** Definitions, the other cases *)


(** *** Member access, the other cases *)

Abbreviation members :=
  (get_members host_call number_to_string object_to_string syntaxTreeToString inherited).
Abbreviation apply :=
  (call host_call number_to_string object_to_string syntaxTreeToString).

Lemma eval_get_form (n : nat) (h : Heap) (ast : Value) (env : loc)
    (base member : Value) (rest : list Value) (v : Value) (h1 : Heap) :
  Js.class_of h ast = Some (CArray (VStr "get" :: base :: member :: rest)) ->
  macro_free h env "get" ->
  eval n base env h = Ok v h1 ->
  Js.typeof h1 v = "object" ->
  eval (S n) ast env h = members (eval n) env (member :: rest) v h1.
Proof.
  intros Hast Hfree Hbase Htype.
  rewrite (form _ _ _ _ _ _ Hast Hfree).
  change (dispatch _ _ _ _ _ _ (VStr "get") ast env h) with
    (eval_get host_call number_to_string object_to_string syntaxTreeToString inherited
       (eval n) ast env h).
  rewrite (eval_get_unfold _ _ _ _ _ _ _ _ _ _ _ _ Hast).
  unfold bind. rewrite Hbase. unfold with_heap at 1. by rewrite Htype.
Qed.

Lemma bound_target_host (fuel : nat) (h : Heap) (x this : Value) (fid : string) :
  Js.class_of h x = Some (CFunction (FHost fid)) ->
  bound_target fuel h x this = (x, this).
Proof. intros Hc. destruct fuel; cbn [bound_target]; by rewrite ?Hc. Qed.

(** X12. Reading a member whose value is a function yields a new function
    bound to the object: a call of the result passes the object as
    receiver, whatever receiver the call supplies. *)
Theorem get_binds_method (n : nat) (h : Heap) (ast : Value) (env : loc)
    (base member : Value) (o : loc) (key : Value) (f : loc) (h1 h2 : Heap) :
  Js.class_of h ast = Some (CArray [VStr "get"; base; member]) ->
  macro_free h env "get" ->
  eval n base env h = Ok (VRef o) h1 ->
  Js.typeof h1 (VRef o) = "object" ->
  Js.is_array h1 member && Js.is_str (Js.nth h1 member 0) "def" = false ->
  eval n member env h1 = Ok key h2 ->
  Js.typeof h2 key = "string" \/ Js.typeof h2 key = "number" ->
  Js.is_str key "__proto__" = false ->
  get_prop number_to_string object_to_string inherited h2 (VRef o) key = VRef f ->
  Js.is_function h2 (VRef f) = true ->
  let bound := h2 ++ [mkObj (CFunction (FBound f (VRef o))) ∅] in
  eval (S n) ast env h = Ok (VRef (length h2)) bound
  /\ (forall fid this args,
        o_class (Js.obj_at h2 f) = CFunction (FHost fid) ->
        apply (eval n) (VRef (length h2)) this args bound
        = host_call fid (VRef o) args bound).
Proof.
  intros Hast Hfree Hbase Htype Hset Hkey Hkind Hproto Hget Hfun bound. split.
  - rewrite (eval_get_form _ _ _ _ _ _ _ _ _ Hast Hfree Hbase Htype).
    cbn [get_members]. unfold with_heap at 1. rewrite Hset.
    unfold bind at 1. rewrite Hkey. unfold with_heap at 1.
    assert (Hkf : Js.is_function h2 key = false).
    { destruct key as [| | | | l |]; try reflexivity.
      unfold Js.typeof in Hkind. destruct (Js.is_function h2 (VRef l)); [| reflexivity].
      by destruct Hkind. }
    rewrite Hkf.
    replace (negb (Js.typeof h2 key =? "string") && negb (Js.typeof h2 key =? "number"))
      with false by (by destruct Hkind as [-> | ->]).
    cbn [Js.is_null]. rewrite Hget, Hproto. cbn [Js.is_null orb]. rewrite Hfun.
    reflexivity.
  - intros fid this args Hclass. unfold call, with_heap.
    assert (Hf : f < length h2) by (by eapply obj_allocated).
    assert (Hb : bound_target (length bound) bound (VRef (length h2)) this
                 = (VRef f, VRef o)).
    { unfold bound at 1. rewrite length_app. cbn [length].
      replace (length h2 + 1) with (S (length h2)) by lia.
      cbn [bound_target]. unfold Js.class_of at 1, bound at 1. rewrite obj_at_alloc.
      cbn [o_class].
      apply bound_target_host with fid. unfold Js.class_of, bound.
      by rewrite obj_at_old, Hclass. }
    rewrite Hb. unfold Js.class_of, bound. by rewrite obj_at_old, Hclass.
Qed.

Lemma bind_ret {A} (m : M A) (h : Heap) : (x <- m ;; ret x) h = m h.
Proof. unfold bind, ret. by destruct (m h). Qed.

(** X13. A member expression that evaluates to a function is no key: the
    function is applied to the value reached so far, and what it
    returns is the value of the access. The function is one of the
    host. *)
Theorem get_applies_function (n : nat) (h : Heap) (ast : Value) (env : loc)
    (base member : Value) (v : Value) (kf : loc) (fid : string) (h1 h2 : Heap) :
  Js.class_of h ast = Some (CArray [VStr "get"; base; member]) ->
  macro_free h env "get" ->
  eval n base env h = Ok v h1 ->
  Js.typeof h1 v = "object" ->
  Js.is_array h1 member && Js.is_str (Js.nth h1 member 0) "def" = false ->
  eval n member env h1 = Ok (VRef kf) h2 ->
  o_class (Js.obj_at h2 kf) = CFunction (FHost fid) ->
  eval (S n) ast env h = host_call fid VUndef [v] h2.
Proof.
  intros Hast Hfree Hbase Htype Hset Hkey Hclass.
  rewrite (eval_get_form _ _ _ _ _ _ _ _ _ Hast Hfree Hbase Htype).
  cbn [get_members]. unfold with_heap at 1. rewrite Hset.
  unfold bind at 1. rewrite Hkey. unfold with_heap at 1.
  assert (Hfun : Js.is_function h2 (VRef kf) = true).
  { unfold Js.is_function, Js.class_of. by rewrite Hclass. }
  rewrite Hfun, bind_ret. unfold call, with_heap.
  rewrite (bound_target_host _ _ _ _ fid) by (unfold Js.class_of; by rewrite Hclass).
  unfold Js.class_of. by rewrite Hclass.
Qed.

(** X14. Reading a list at a number [i] below [2^32 - 1] yields the element at
    position [i], and nil when [i] is past the end or the element is
    [null]; the store is the one the two evaluations leave. The element
    is no function. *)
Theorem get_list_element (n : nat) (h : Heap) (ast : Value) (env : loc)
    (base member : Value) (a : loc) (es : list Value) (i : nat) (h1 h2 : Heap) :
  Js.class_of h ast = Some (CArray [VStr "get"; base; member]) ->
  macro_free h env "get" ->
  eval n base env h = Ok (VRef a) h1 ->
  Js.typeof h1 (VRef a) = "object" ->
  Js.is_array h1 member && Js.is_str (Js.nth h1 member 0) "def" = false ->
  eval n member env h1 = Ok (VNum (Num.of_nat i)) h2 ->
  (Z.of_nat i < 4294967295)%Z ->
  Js.class_of h2 (VRef a) = Some (CArray es) ->
  Js.is_function h2 (default VUndef (es !! i)) = false ->
  let x := default VUndef (es !! i) in
  eval (S n) ast env h = Ok (if Js.is_null x then VUndef else x) h2.
Proof.
  intros Hast Hfree Hbase Htype Hset Hkey Hi Hclass Hfun x. subst x.
  rewrite (eval_get_form _ _ _ _ _ _ _ _ _ Hast Hfree Hbase Htype).
  cbn [get_members]. unfold with_heap at 1. rewrite Hset.
  unfold bind at 1. rewrite Hkey. unfold with_heap at 1.
  change (Js.is_function h2 (VNum (Num.of_nat i))) with false.
  cbn [Js.typeof String.eqb Ascii.eqb Bool.eqb negb andb Js.is_null Js.is_str orb].
  assert (Hget : get_prop number_to_string object_to_string inherited h2 (VRef a)
                   (VNum (Num.of_nat i)) = default VUndef (es !! i)).
  { unfold get_prop. cbv zeta. cbn [Js.class_of] in Hclass.
    injection Hclass as ->. cbn [Js.index_of_key]. by rewrite (index_of_nat _ Hi). }
  rewrite Hget.
  destruct (default VUndef (es !! i)) as [| b | f | s | l |] eqn:E;
    cbn [Js.is_null orb]; try reflexivity.
  by rewrite Hfun.
Qed.

(** X15. Only the root of a member chain is checked to be an object: when the
    first member of [a.b.c] is a number, under which the second key
    finds nothing, the access does not throw but returns nil. *)
Theorem get_checks_root_only (n : nat) (h : Heap) (ast : Value) (env : loc)
    (base m1 m2 : Value) (o : loc) (k1 k2 : Value) (x : float) (h1 h2 h3 : Heap) :
  Js.class_of h ast = Some (CArray [VStr "get"; base; m1; m2]) ->
  macro_free h env "get" ->
  eval n base env h = Ok (VRef o) h1 ->
  Js.typeof h1 (VRef o) = "object" ->
  Js.is_array h1 m1 && Js.is_str (Js.nth h1 m1 0) "def" = false ->
  eval n m1 env h1 = Ok k1 h2 ->
  Js.typeof h2 k1 = "string" \/ Js.typeof h2 k1 = "number" ->
  Js.is_str k1 "__proto__" = false ->
  get_prop number_to_string object_to_string inherited h2 (VRef o) k1 = VNum x ->
  Js.is_array h2 m2 && Js.is_str (Js.nth h2 m2 0) "def" = false ->
  eval n m2 env h2 = Ok k2 h3 ->
  Js.typeof h3 k2 = "string" \/ Js.typeof h3 k2 = "number" ->
  get_prop number_to_string object_to_string inherited h3 (VNum x) k2 = VUndef ->
  eval (S n) ast env h = Ok VUndef h3.
Proof.
  intros Hast Hfree Hbase Htype Hset1 Hk1 Hkind1 Hproto Hget1 Hset2 Hk2 Hkind2 Hget2.
  assert (Hkf : forall hh key,
            Js.typeof hh key = "string" \/ Js.typeof hh key = "number" ->
            Js.is_function hh key = false
            /\ negb (Js.typeof hh key =? "string") && negb (Js.typeof hh key =? "number")
               = false).
  { intros hh key Hkind. split; [| by destruct Hkind as [-> | ->]].
    destruct key as [| | | | l |]; try reflexivity.
    unfold Js.typeof in Hkind. destruct (Js.is_function hh (VRef l)); [| reflexivity].
    by destruct Hkind. }
  rewrite (eval_get_form _ _ _ _ _ _ _ _ _ Hast Hfree Hbase Htype).
  cbn [get_members]. unfold with_heap at 1. rewrite Hset1.
  unfold bind at 1. rewrite Hk1. unfold with_heap at 1.
  destruct (Hkf _ _ Hkind1) as [-> ->].
  cbn [Js.is_null]. rewrite Hget1, Hproto. cbn [Js.is_null orb].
  unfold with_heap at 1. rewrite Hset2.
  unfold bind at 1. rewrite Hk2. unfold with_heap at 1.
  destruct (Hkf _ _ Hkind2) as [-> ->].
  cbn [Js.is_null]. rewrite Hget2. reflexivity.
Qed.

(** *** Binding arguments by position *)





(** *** Spreading a list into a list *)

(** X18. In a [list] form, the spread of a symbol that denotes a list (not one
    that starts with [lambda]) copies the elements of that list: the
    result is a new list with the same elements, not the list the
    symbol denotes. *)
Theorem list_spread_copies (n : nat) (h : Heap) (ast : Value) (env : loc)
    (sp : loc) (s : string) (a : loc) (vs : list Value) :
  Js.class_of h ast = Some (CArray [VStr "list"; VRef sp]) ->
  Js.class_of h (VRef sp) = Some (CArray [VStr "..."; VStr s]) ->
  macro_free h env "list" ->
  special_form s = false -> s <> "local" -> s <> "global" ->
  macro_free (h ++ [mkObj (CArray []) ∅; mkObj (CArray [VStr s]) ∅]) env s ->
  resolves h env s (VRef a) ->
  Js.class_of h (VRef a) = Some (CArray vs) ->
  Js.is_str (default VUndef (vs !! 0)) "lambda" = false ->
  eval (S (S (S n))) ast env h
  = Ok (VRef (length h))
       (h ++ [mkObj (CArray vs) ∅; mkObj (CArray [VStr s]) ∅; mkObj (CArray [VRef a]) ∅]).
Proof.
  intros Hast Hsp Hfree Hspecial Hlocal Hglobal Hfree' Hres Ha Hhead.
  rewrite (form _ _ _ _ _ _ Hast Hfree).
  change (dispatch _ _ _ _ _ _ (VStr "list") ast env h) with
    (eval_list (eval (S (S n))) ast env h).
  unfold eval_list, with_heap at 1. rewrite (class_array_elems _ _ _ Hast). cbn [drop].
  unfold bind at 1, alloc at 1. cbn [for_each]. unfold bind at 1 2, eval_list_item, with_heap at 1.
  pose proof (class_of_grow _ [mkObj (CArray []) ∅] _ _ Hsp) as Hsp1.
  rewrite (class_array_is_array _ _ _ Hsp1), (class_array_nth _ _ _ 0 Hsp1),
    (class_array_elems _ _ _ Hsp1).
  cbn [lookup list_lookup default from_option id Js.is_str String.eqb Ascii.eqb
       Bool.eqb andb drop].
  unfold bind at 1, new_array, bind at 1, alloc at 1, ret at 1.
  rewrite <- app_assoc. cbn [app]. rewrite length_app. cbn [length].
  set (h2 := h ++ [mkObj (CArray []) ∅; mkObj (CArray [VStr s]) ∅]) in *.
  assert (Hlen2 : length h2 = length h + 2) by (unfold h2; rewrite length_app; simpl; lia).
  assert (Hinner : Js.class_of h2 (VRef (length h + 1)) = Some (CArray [VStr s])).
  { unfold Js.class_of, Js.obj_at, h2. rewrite lookup_app_r by lia.
    by replace (length h + 1 - length h) with 1 by lia. }
  (* the inner form [[s]] evaluates to the list *)
  assert (Hev : eval (S (S n)) (VRef (length h + 1)) env h2
                = Ok (VRef a) (h2 ++ [mkObj (CArray [VRef a]) ∅])).
  { rewrite (form _ _ _ _ _ _ Hinner Hfree').
    rewrite dispatch_invoke by (by intros ? [= <-]).
    unfold eval_invoke, bind at 1.
    rewrite (evaluateExpression_pure _ _ _ _ _ [VRef a] Hinner);
      [| simpl; lia
       | constructor; [| constructor]; intros partial; unfold h2;
         rewrite <- app_assoc; by apply evaluate_symbol_grow].
    unfold with_heap.
    assert (Hf : Js.nth (h2 ++ [mkObj (CArray [VRef a]) ∅]) (VRef (length h2)) 0 = VRef a).
    { unfold Js.nth, Js.elems, Js.class_of. by rewrite obj_at_alloc. }
    rewrite Hf. cbn [Js.is_null].
    assert (Ha' : Js.class_of (h2 ++ [mkObj (CArray [VRef a]) ∅]) (VRef a)
                  = Some (CArray vs)).
    { unfold h2. rewrite <- app_assoc. by apply class_of_grow. }
    rewrite (class_array_is_array _ _ _ Ha'), (class_array_nth _ _ _ 0 Ha'), Hhead.
    cbn [andb]. unfold Js.is_function. by rewrite Ha'. }
  unfold bind at 1. rewrite Hev.
  unfold bind at 1, iterate, with_heap at 1, h2. rewrite <- app_assoc. cbn [app].
  pose proof (class_of_grow _ [mkObj (CArray []) ∅; mkObj (CArray [VStr s]) ∅;
                               mkObj (CArray [VRef a]) ∅] _ _ Ha) as Ha3.
  rewrite (class_array_is_array _ _ _ Ha3), (class_array_elems _ _ _ Ha3).
  unfold ret at 1, array_push, write. rewrite obj_at_here. cbn [o_class o_props app].
  by rewrite insert_here.
Qed.

(** *** Macros *)

Abbreviation expand :=
  (expandMacro host_call number_to_string object_to_string syntaxTreeToString inherited).
Abbreviation turn :=
  (evaluate_turn host_call number_to_string object_to_string syntaxTreeToString inherited).

(** A tree that [expandMacro] leaves as it is. *)
Lemma expand_done ev (fuel : nat) (h : Heap) (ast : Value) (env : loc) :
  Js.is_array h ast = false
  \/ (exists head es, Js.class_of h ast = Some (CArray (VStr head :: es))
                      /\ macro_free h env head)
  \/ (exists es, Js.class_of h ast = Some (CArray es)
                 /\ forall s, default VUndef (es !! 0) <> VStr s) ->
  expand ev fuel ast env h = Ok ast h.
Proof.
  intros [Harr | [(head & es & Hast & Hfree) | (es & Hast & Hhead)]].
  - destruct fuel; simpl; unfold with_heap; by rewrite Harr.
  - by eapply expandMacro_free.
  - assert (Hty : String.eqb (Js.typeof h (Js.nth h ast 0)) "string" = false).
    { rewrite (class_array_nth _ _ _ 0 Hast).
      destruct (default VUndef (es !! 0)) as [| | | s | l |] eqn:Hd; try reflexivity.
      - by destruct (Hhead s).
      - unfold Js.typeof. by destruct (Js.is_function _ _). }
    destruct fuel; simpl; unfold with_heap; rewrite Hty, andb_false_r; reflexivity.
Qed.

(** X19. The [macro] form (also written [~]) evaluates its operand to a
    function, marks it with [isMacro] and returns it. A form headed by
    a symbol that the scope binds to a host function so marked is
    replaced, before evaluation, by what the function returns for the
    unevaluated operands, called with the scope as receiver; the form
    evaluates as that result does when it needs no further expansion. *)
Theorem macro_expansion :
  (forall (n : nat) (h : Heap) (ast : Value) (env : loc) (head : string)
      (fexpr : Value) (es : list Value) (fl : loc) (k : FunKind) (h1 : Heap),
      Js.class_of h ast = Some (CArray (VStr head :: fexpr :: es)) ->
      head = "macro" \/ head = "~" ->
      macro_free h env head ->
      eval n fexpr env h = Ok (VRef fl) h1 ->
      o_class (Js.obj_at h1 fl) = CFunction k ->
      eval (S n) ast env h
      = Ok (VRef fl)
          (<[fl := mkObj (CFunction k)
                     (<["isMacro" := VBool true]> (o_props (Js.obj_at h1 fl)))]> h1))
  /\ (forall (n : nat) (h : Heap) (ast : Value) (env : loc) (m : string)
        (args : list Value) (fl : loc) (fid : string) (ast' : Value) (h' : Heap),
        Js.class_of h ast = Some (CArray (VStr m :: args)) ->
        get_prop number_to_string object_to_string inherited h (VRef env) (VStr m)
        = VRef fl ->
        o_class (Js.obj_at h fl) = CFunction (FHost fid) ->
        Js.truthy (get_prop number_to_string object_to_string inherited h (VRef fl)
                     (VStr "isMacro")) = true ->
        host_call fid (VRef env) args h = Ok ast' h' ->
        Js.is_array h' ast' = false
        \/ (exists head es, Js.class_of h' ast' = Some (CArray (VStr head :: es))
                            /\ macro_free h' env head)
        \/ (exists es, Js.class_of h' ast' = Some (CArray es)
                       /\ forall s, default VUndef (es !! 0) <> VStr s) ->
        eval (S (S n)) ast env h = eval (S (S n)) ast' env h').
Proof.
  split.
  - intros n h ast env head fexpr es fl k h1 Hast Hhead Hfree Hf Hclass.
    rewrite (form _ _ _ _ _ _ Hast Hfree).
    assert (Hd : dispatch host_call number_to_string object_to_string syntaxTreeToString
                   inherited (eval n) (VStr head) ast env
                 = eval_macro number_to_string object_to_string (eval n) ast env)
      by (by destruct Hhead as [-> | ->]).
    rewrite Hd. unfold eval_macro, with_heap at 1.
    rewrite (class_array_nth _ _ _ 1 Hast). cbn [lookup list_lookup default from_option id].
    unfold bind at 1. rewrite Hf. unfold bind at 1.
    rewrite set_prop_named by (by rewrite Hclass). by rewrite Hclass.
  - intros n h ast env m args fl fid ast' h' Hast Hget Hclass Hmacro Hcall Hdone.
    assert (He : forall ev fuel, expand ev fuel ast' env h' = Ok ast' h')
      by (intros ev fuel; by apply expand_done).
    clear Hdone.
    assert (Hturn : forall fuel, turn (eval (S n)) fuel ast' env h'
                                 = eval (S (S n)) ast' env h').
    { intros fuel.
      change (eval (S (S n)) ast' env h') with (turn (eval (S n)) (S n) ast' env h').
      unfold evaluate_turn, with_heap at 1 3.
      destruct (Js.is_array h' ast'); cbn [negb]; [| reflexivity].
      unfold bind. by rewrite !He. }
    rewrite <- (Hturn n).
    change (eval (S (S n)) ast env h) with (turn (eval (S n)) (S n) ast env h).
    unfold evaluate_turn at 1, with_heap at 1.
    rewrite (class_array_is_array _ _ _ Hast). cbn [negb].
    unfold bind at 1. cbn [expandMacro]. unfold with_heap at 1.
    rewrite (class_array_is_array _ _ _ Hast), (class_array_nth _ _ _ 0 Hast),
      (class_array_elems _ _ _ Hast).
    cbn [lookup list_lookup default from_option id Js.typeof String.eqb Ascii.eqb
         Bool.eqb andb drop].
    rewrite Hget, Hmacro. cbn [Js.truthy andb].
    unfold bind at 1, call, with_heap at 1.
    rewrite (bound_target_host _ _ _ _ fid) by (unfold Js.class_of; by rewrite Hclass).
    unfold Js.class_of. rewrite Hclass, drop_0, Hcall.
    rewrite He. unfold evaluate_turn, with_heap.
    destruct (Js.is_array h' ast') eqn:Harr; cbn [negb]; [| reflexivity].
    unfold bind. rewrite He. by rewrite Harr.
Qed.

End Evaluation.

(** ** The rule table: quoted strings *)

Section Strings.

Local Open Scope string_scope.

Lemma append_nil (s : string) : "" +:+ s = s.
Proof. reflexivity. Qed.

Lemma append_cons (c : ascii) (a b : string) : String c a +:+ b = String c (a +:+ b).
Proof. reflexivity. Qed.

Lemma append_assoc (a b c : string) : (a +:+ b) +:+ c = a +:+ (b +:+ c).
Proof. induction a as [| x a IH]; [reflexivity |]. by rewrite !append_cons, IH. Qed.

Lemma plain_cons (c : ascii) (s : string) :
  plain_text (String c s) = true ->
  Ascii.eqb c "'" = false /\ Ascii.eqb c "034" = false /\ Ascii.eqb c "\" = false
  /\ (nat_of_ascii c <? 32)%nat = false /\ plain_text s = true.
Proof.
  cbn [plain_text]. unfold plain_char. intros H.
  repeat (apply andb_true_iff in H as [H ?]).
  repeat split; try (by apply negb_true_iff); [| done].
  apply Nat.ltb_ge. by apply Nat.leb_le.
Qed.

Lemma quoted_body_plain (q : ascii) (body rest : string) :
  plain_text body = true -> q = "'"%char \/ q = "034"%char ->
  Lex.quoted_body q (body +:+ String q rest) = Some rest.
Proof.
  intros Hplain Hq. induction body as [| c body IH].
  - rewrite append_nil. cbn [Lex.quoted_body]. by rewrite Ascii.eqb_refl.
  - apply plain_cons in Hplain as (H1 & H2 & H3 & _ & Hrest).
    rewrite append_cons. cbn [Lex.quoted_body].
    assert (Hcq : Ascii.eqb c q = false) by (by destruct Hq as [-> | ->]).
    rewrite Hcq, H3. by apply IH.
Qed.

Lemma take_append (a b : string) : Lex.take (String.length a) (a +:+ b) = a.
Proof.
  induction a as [| c a IH]; [by destruct b |].
  rewrite append_cons. cbn [String.length Lex.take]. by rewrite IH.
Qed.

Lemma length_append (a b : string) :
  String.length (a +:+ b) = String.length a + String.length b.
Proof.
  induction a as [| c a IH]; [reflexivity |].
  rewrite append_cons. cbn [String.length]. by rewrite IH.
Qed.

Lemma slice_quoted (q : ascii) (body : string) :
  JsString.slice_1_m1 (quoted q body) = body.
Proof.
  unfold JsString.slice_1_m1, quoted.
  rewrite length_append. cbn [String.length].
  replace (String.length body + 1 - 1) with (String.length body) by lia.
  apply take_append.
Qed.

Lemma json_chars_plain (body rest : string) :
  plain_text body = true ->
  JsString.json_chars (body +:+ String "034" rest) = Some (body, rest).
Proof.
  intros Hplain. induction body as [| c body IH]; [reflexivity |].
  apply plain_cons in Hplain as (H1 & H2 & H3 & H4 & Hrest).
  rewrite append_cons. cbn [JsString.json_chars]. rewrite H2, H4, H3. by rewrite IH.
Qed.

Lemma json_parse_quoted (body : string) :
  plain_text body = true ->
  JsString.json_parse_string (quoted "034" body) = Some body.
Proof.
  intros Hplain. unfold JsString.json_parse_string, quoted.
  change (Lex.skip JsString.is_json_ws (String "034" (body +:+ String "034" EmptyString)))
    with (String "034" (body +:+ String "034" EmptyString)).
  cbn [Ascii.eqb Bool.eqb]. by rewrite json_chars_plain.
Qed.

(** X20. A text without quote, backslash or control character, put between
    single or between double quotes, is matched by the rule of that
    quote up to the closing quote, and the rule's handler returns the
    quote form of exactly that text. *)
Theorem quoted_text_round_trip (body rest : string) :
  plain_text body = true ->
  r_match Rules.single_quoted (quoted "'" body +:+ rest) = Some rest
  /\ prefix_of Rules.single_quoted (quoted "'" body)
     = Some (PRet (EList [EStr "`"; EStr body]))
  /\ r_match Rules.double_quoted (quoted "034" body +:+ rest) = Some rest
  /\ prefix_of Rules.double_quoted (quoted "034" body)
     = Some (PRet (EList [EStr "`"; EStr body])).
Proof.
  intros Hplain.
  assert (Hmatch : forall q, q = "'"%char \/ q = "034"%char ->
            Lex.m_quoted q (quoted q body +:+ rest) = Some rest).
  { intros q Hq. unfold Lex.m_quoted, quoted. rewrite append_cons.
    assert (Hws : Lex.skip_ws (String q ((body +:+ String q "") +:+ rest))
                  = String q ((body +:+ String q "") +:+ rest))
      by (by destruct Hq as [-> | ->]).
    rewrite Hws, Ascii.eqb_refl, append_assoc, append_cons, append_nil.
    by apply quoted_body_plain. }
  split; [apply Hmatch; by left |]. split; [| split; [apply Hmatch; by right |]].
  - unfold prefix_of. cbn [Rules.single_quoted r_prefix].
    rewrite slice_quoted.
    change (String "034" body +:+ String "034" EmptyString) with (quoted "034" body).
    by rewrite json_parse_quoted.
  - unfold prefix_of. cbn [Rules.double_quoted r_prefix]. by rewrite json_parse_quoted.
Qed.

End Strings.

(** ** The rule table: numbers *)

Section Numerals.

Local Open Scope string_scope.

Lemma append_nil_r (s : string) : s +:+ "" = s.
Proof. induction s as [| c s IH]; [reflexivity |]. by rewrite append_cons, IH. Qed.

Lemma digits_val_uint (d : Decimal.uint) (acc : N) :
  Num.digits_val acc (NilEmpty.string_of_uint d)
  = N.of_nat (Nat.of_uint_acc d (N.to_nat acc)).
Proof.
  revert acc. induction d as [| d IH | d IH | d IH | d IH | d IH | d IH | d IH
                               | d IH | d IH | d IH]; intros acc;
    cbn [NilEmpty.string_of_uint Num.digits_val Nat.of_uint_acc];
    [by rewrite N2Nat.id | ..];
    rewrite IH, Nat.tail_mul_spec; do 2 f_equal;
    unfold Num.digit_val; rewrite N2Nat.inj_add, N2Nat.inj_mul, Nat2N.id;
    vm_compute (nat_of_ascii _ - 48); vm_compute (N.to_nat 10); lia.
Qed.

Lemma index_key_numeral (n : nat) :
  Js.index_key n = NilEmpty.string_of_uint (Nat.to_uint n)
  /\ Js.index_key n <> "".
Proof.
  unfold Js.index_key, NilZero.string_of_uint.
  destruct (Nat.to_uint n) eqn:E; [| by split ..].
  exfalso. pose proof (DecimalNat.Unsigned.of_to n) as H. 
  assert (Hn : n = 0) by (rewrite <- H, E; reflexivity).
  subst n. discriminate E.
Qed.

Lemma digits_val_index_key (n : nat) : Num.digits_val 0 (Js.index_key n) = N.of_nat n.
Proof.
  rewrite (proj1 (index_key_numeral n)), digits_val_uint.
  change (Nat.of_uint_acc (Nat.to_uint n) (N.to_nat 0)) with (Nat.of_uint (Nat.to_uint n)).
  by rewrite DecimalNat.Unsigned.of_to.
Qed.

Lemma uint_digits (d : Decimal.uint) (rest : string) :
  ends_number rest = true ->
  Lex.span Num.is_digit (NilEmpty.string_of_uint d +:+ rest)
  = (NilEmpty.string_of_uint d, rest).
Proof.
  intros Hrest.
  induction d as [| d IH | d IH | d IH | d IH | d IH | d IH | d IH
                  | d IH | d IH | d IH];
    cbn [NilEmpty.string_of_uint]; rewrite ?append_cons, ?append_nil;
    [| cbn [Lex.span]; change (Num.is_digit _) with true; cbv iota; by rewrite IH ..].
  destruct rest as [| c rest]; [reflexivity |].
  cbn [Lex.span]. cbn [ends_number] in Hrest.
  apply andb_true_iff in Hrest as [Hd _]. apply negb_true_iff in Hd. by rewrite Hd.
Qed.

Lemma skip_ws_digit (c : ascii) (s : string) :
  Num.is_digit c = true -> Lex.skip_ws (String c s) = String c s.
Proof.
  intros Hc. unfold Lex.skip_ws, Lex.skip. cbn [Lex.span].
  assert (Hs : Lex.is_space c = false); [| by rewrite Hs].
  unfold Num.is_digit in Hc. apply andb_true_iff in Hc as [H1 H2].
  apply Nat.leb_le in H1, H2. unfold Lex.is_space.
  destruct (nat_of_ascii c) as [| k] eqn:E; [lia |].
  do 32 (destruct k as [| k]; [lia || reflexivity |]). destruct k; [lia | reflexivity].
Qed.

Lemma uint_head (d : Decimal.uint) :
  d <> Decimal.Nil ->
  exists c s, NilEmpty.string_of_uint d = String c s /\ Num.is_digit c = true.
Proof. destruct d; [done | intros _; cbn [NilEmpty.string_of_uint]; eauto ..]. Qed.

(** X21. The decimal numeral of a natural number, followed by something that
    starts with neither a digit nor a dot, is matched whole by the
    number rule, together with the white space after it, and the
    handler reads it back as the double nearest to that number. *)
Theorem number_reads_numeral (n : nat) (rest : string) :
  ends_number rest = true ->
  r_match Rules.number (Js.index_key n +:+ rest) = Some (Lex.skip_ws rest)
  /\ prefix_of Rules.number (Js.index_key n) = Some (PRet (ENum (Num.of_nat n))).
Proof.
  intros Hrest.
  destruct (index_key_numeral n) as [Hkey Hne].
  assert (Hd : Nat.to_uint n <> Decimal.Nil).
  { intros E. rewrite Hkey, E in Hne. by apply Hne. }
  destruct (uint_head _ Hd) as (c & s & Hs & Hc).
  assert (Hspan : forall r, ends_number r = true ->
            Lex.span Num.is_digit (Lex.skip_ws (Js.index_key n +:+ r))
            = (Js.index_key n, r)).
  { intros r Hr. rewrite Hkey, Hs, append_cons, (skip_ws_digit _ _ Hc).
    rewrite <- append_cons, <- Hs. by apply uint_digits. }
  split.
  - cbn [Rules.number r_match]. unfold Lex.m_number. rewrite (Hspan _ Hrest).
    rewrite Hkey, Hs. cbn [Lex.nonempty].
    destruct rest as [| x rest]; [reflexivity |].
    cbn [ends_number] in Hrest. apply andb_true_iff in Hrest as [_ Hdot].
    apply negb_true_iff in Hdot.
    destruct (Ascii.eqb_spec x "."); [done |].
    by destruct x as [[] [] [] [] [] [] [] []].
  - unfold prefix_of. cbn [Rules.number r_prefix]. unfold JsString.parseFloat.
    rewrite <- (append_nil_r (Js.index_key n)) at 1.
    rewrite (Hspan "" eq_refl). rewrite Hkey at 1. rewrite Hs. cbn [Lex.nonempty orb].
    rewrite append_nil_r, digits_val_index_key. reflexivity.
Qed.

End Numerals.

(** ** The rule table: escapes between single quotes *)

Section QuotedEscapes.

Local Open Scope string_scope.

Lemma quoted_body_skip (q : ascii) (body tail : string) :
  plain_text body = true -> q = "'"%char \/ q = "034"%char ->
  Lex.quoted_body q (body +:+ tail) = Lex.quoted_body q tail.
Proof.
  intros Hplain Hq. induction body as [| c body IH]; [reflexivity |].
  apply plain_cons in Hplain as (H1 & H2 & H3 & _ & Hrest).
  rewrite append_cons. cbn [Lex.quoted_body].
  assert (Hcq : Ascii.eqb c q = false) by (by destruct Hq as [-> | ->]).
  rewrite Hcq, H3. by apply IH.
Qed.

Lemma json_chars_skip (body tail : string) :
  plain_text body = true ->
  JsString.json_chars (body +:+ tail)
  = match JsString.json_chars tail with
    | Some (t, rest) => Some (body +:+ t, rest)
    | None => None
    end.
Proof.
  intros Hplain. induction body as [| c body IH].
  - rewrite append_nil. by destruct (JsString.json_chars tail) as [[] |].
  - apply plain_cons in Hplain as (H1 & H2 & H3 & H4 & Hrest).
    rewrite append_cons. cbn [JsString.json_chars]. rewrite H2, H4, H3, (IH Hrest).
    by destruct (JsString.json_chars tail) as [[] |].
Qed.

Lemma skip_keeps_last (p : ascii -> bool) (b : string) (c : ascii) :
  p c = false -> Lex.nonempty (Lex.skip p (b +:+ String c "")) = true.
Proof.
  intros Hc. unfold Lex.skip. induction b as [| x b IH].
  - rewrite append_nil. cbn [Lex.span]. by rewrite Hc.
  - rewrite append_cons. cbn [Lex.span]. destruct (p x); [| reflexivity].
    by destruct (Lex.span p (b +:+ String c "")).
Qed.

Lemma m_quoted_open (q : ascii) (s : string) :
  q = "'"%char \/ q = "034"%char -> Lex.m_quoted q (String q s) = Lex.quoted_body q s.
Proof. by intros [-> | ->]. Qed.

Lemma json_parse_open (s : string) :
  JsString.json_parse_string (String "034" s)
  = match JsString.json_chars s with
    | Some (t, rest) =>
        if Lex.nonempty (Lex.skip JsString.is_json_ws rest) then None else Some t
    | None => None
    end.
Proof. reflexivity. Qed.

(** X22. Inside a single-quoted string an escaped single quote, or a bare
    double quote, is accepted by the pattern of the rule, but the
    handler then throws: the text it hands to [JSON.parse] is no JSON
    string. *)
Theorem single_quoted_inner_quote (a b rest : string) :
  plain_text a = true -> plain_text b = true ->
  r_match Rules.single_quoted (quoted "'" (a +:+ "\'" +:+ b) +:+ rest) = Some rest
  /\ prefix_of Rules.single_quoted (quoted "'" (a +:+ "\'" +:+ b)) = Some PFail
  /\ r_match Rules.single_quoted (quoted "'" (a +:+ String "034" b) +:+ rest) = Some rest
  /\ prefix_of Rules.single_quoted (quoted "'" (a +:+ String "034" b)) = Some PFail.
Proof.
  intros Ha Hb.
  assert (Hq : "'"%char = "'"%char \/ "'"%char = "034"%char) by (by left).
  assert (Hhandler : forall body,
            prefix_of Rules.single_quoted (quoted "'" body)
            = Some match JsString.json_parse_string (quoted "034" body) with
                   | Some s => PRet (EList [EStr "`"; EStr s])
                   | None => PFail
                   end).
  { intros body. unfold prefix_of. cbn [Rules.single_quoted r_prefix].
    by rewrite slice_quoted. }
  repeat split.
  - cbn [Rules.single_quoted r_match]. unfold quoted.
    rewrite append_cons, (m_quoted_open _ _ Hq).
    rewrite !append_assoc, (quoted_body_skip _ _ _ Ha Hq).
    rewrite ?append_cons, ?append_nil. cbn [Lex.quoted_body Ascii.eqb Bool.eqb orb].
    cbv iota. rewrite (quoted_body_skip _ _ _ Hb Hq). rewrite ?append_cons, ?append_nil.
    cbn [Lex.quoted_body]. by rewrite Ascii.eqb_refl.
  - rewrite Hhandler. unfold quoted. rewrite json_parse_open, !append_assoc.
    rewrite (json_chars_skip _ _ Ha). by rewrite !append_cons.
  - cbn [Rules.single_quoted r_match]. unfold quoted.
    rewrite append_cons, (m_quoted_open _ _ Hq).
    rewrite !append_assoc, (quoted_body_skip _ _ _ Ha Hq).
    rewrite ?append_cons, ?append_nil. cbn [Lex.quoted_body Ascii.eqb Bool.eqb orb].
    cbv iota. rewrite (quoted_body_skip _ _ _ Hb Hq). rewrite ?append_cons, ?append_nil.
    cbn [Lex.quoted_body]. by rewrite Ascii.eqb_refl.
  - rewrite Hhandler. unfold quoted. rewrite json_parse_open, !append_assoc.
    rewrite (json_chars_skip _ _ Ha). rewrite !append_cons.
    cbn [JsString.json_chars Ascii.eqb Bool.eqb]. cbv iota.
    by rewrite skip_keeps_last.
Qed.

End QuotedEscapes.

(** ** The rule table: the unary minus *)

Section UnaryMinus.

Local Open Scope string_scope.

Lemma rev_app_rev_app (s a b : string) :
  String.rev_app (String.rev_app s a) b = String.rev_app a (s +:+ b).
Proof.
  revert a b. induction s as [| c s IH]; intros a b; [reflexivity |].
  cbn [String.rev_app]. by rewrite IH, append_cons.
Qed.

Lemma rev_rev (s : string) : String.rev (String.rev s) = s.
Proof. unfold String.rev. by rewrite rev_app_rev_app, append_nil_r. Qed.

Lemma all_chars_rev_app (p : ascii -> bool) (s a : string) :
  all_chars p s = true -> all_chars p a = true ->
  all_chars p (String.rev_app s a) = true.
Proof.
  revert a. induction s as [| c s IH]; intros a Hs Ha; [exact Ha |].
  cbn [all_chars] in Hs. apply andb_true_iff in Hs as [Hc Hs].
  cbn [String.rev_app]. apply IH; [exact Hs |]. cbn [all_chars]. by rewrite Hc, Ha.
Qed.

Lemma word_not_space (c : ascii) : Lex.is_word c = true -> Lex.is_space c = false.
Proof. by destruct c as [[] [] [] [] [] [] [] []]. Qed.

Lemma skip_ws_word (s : string) :
  all_chars Lex.is_word s = true -> Lex.skip_ws s = s.
Proof.
  destruct s as [| c s]; [reflexivity |]. cbn [all_chars]. intros H.
  apply andb_true_iff in H as [Hc _]. unfold Lex.skip_ws, Lex.skip. cbn [Lex.span].
  by rewrite (word_not_space _ Hc).
Qed.

Lemma trim_word (s : string) : all_chars Lex.is_word s = true -> Lex.trim s = s.
Proof.
  intros Hs. unfold Lex.trim. rewrite (skip_ws_word _ Hs), skip_ws_word, rev_rev; [done |].
  unfold String.rev. by apply all_chars_rev_app.
Qed.

Lemma to_number_name (s : string) :
  name_text s = true -> s <> "Infinity" -> JsString.to_number s = Num.nan.
Proof.
  intros Hname Hinf. destruct s as [| c r]; [discriminate |].
  cbn [name_text] in Hname. apply andb_true_iff in Hname as [Hdigit Hword].
  apply negb_true_iff in Hdigit.
  unfold JsString.to_number. rewrite (trim_word _ Hword).
  apply String.eqb_neq in Hinf.
  assert (Hc : Lex.is_word c = true).
  { cbn [all_chars] in Hword. by apply andb_true_iff in Hword as [? _]. }
  assert (Hdec : forall neg, JsString.unsigned_decimal neg (String c r) = None).
  { intros neg. unfold JsString.unsigned_decimal. cbn [Lex.span]. rewrite Hdigit.
    destruct (Ascii.eqb_spec c "."); [by subst c |].
    replace (match String c r with
             | String "." r0 => Lex.span Num.is_digit r0
             | _ => (EmptyString, String c r)
             end) with (EmptyString, String c r)
      by (by destruct c as [[] [] [] [] [] [] [] []]).
    reflexivity. }
  clear Hword.
  destruct c as [[] [] [] [] [] [] [] []];
    try discriminate Hdigit; try discriminate Hc;
    cbv beta iota zeta; by rewrite Hinf, Hdec.
Qed.

(** X23. The prefix handler of [-] asks for one operand at power 70 and
    negates it as a number while parsing, so that its result is always
    a number literal: the negated number for a number operand, and NaN
    for an operand that is a name (other than [Infinity]) or a list of
    two or more elements, as every operation is. *)
Theorem minus_prefix_is_a_number (value : string) :
  exists k,
    prefix_of Rules.minus value = Some (PNext 70 k)
    /\ (forall e, exists f, k e = PRet (ENum f))
    /\ (forall f, k (ENum f) = PRet (ENum (- f)))
    /\ (forall s, name_text s = true -> s <> "Infinity" ->
          k (EStr s) = PRet (ENum Num.nan))
    /\ (forall x y l, k (EList (x :: y :: l)) = PRet (ENum Num.nan)).
Proof.
  eexists. split; [reflexivity |]. split; [by eauto |]. split; [reflexivity |].
  split; [| reflexivity].
  intros s Hname Hinf. cbn [Ast.to_number]. by rewrite (to_number_name _ Hname Hinf).
Qed.

End UnaryMinus.

(** ** The rule table: the order of the rules *)

Section RuleTable.

Local Open Scope string_scope.

Ltac selected n :=
  exists (take n Rules.rules), (drop (S n) Rules.rules);
  split; [reflexivity | split; [repeat constructor | vm_compute; reflexivity]].

(** X24. A source that starts with the letters [if], [or], [and] or [not] is
    taken by the rule of that word, whatever follows the letters, more
    letters included: the rule matches, up to the white space after the
    word, and no rule before it in the table does. *)
Theorem reserved_word_prefix (s : string) :
  selects Rules.if_ ("if" +:+ s) (Lex.skip_ws s)
  /\ selects Rules.or_ ("or" +:+ s) (Lex.skip_ws s)
  /\ selects Rules.and_ ("and" +:+ s) (Lex.skip_ws s)
  /\ selects Rules.not_ ("not" +:+ s) (Lex.skip_ws s).
Proof. split; [selected 1 | split; [selected 2 | split; [selected 3 | selected 4]]]. Qed.

(** X25. The operators of two characters [->], [=>], [==], [!=], [<=] and [>=]
    are taken by their own rules: each matches, and no rule before it
    in the table does, the rules of their one-character prefixes coming
    later. *)
Theorem longest_operator_first (s : string) :
  selects Rules.apply_ ("->" +:+ s) (Lex.skip_ws s)
  /\ selects Rules.lambda ("=>" +:+ s) (Lex.skip_ws s)
  /\ selects Rules.eq_op ("==" +:+ s) (Lex.skip_ws s)
  /\ selects Rules.ne_op ("!=" +:+ s) (Lex.skip_ws s)
  /\ selects Rules.le_op ("<=" +:+ s) (Lex.skip_ws s)
  /\ selects Rules.ge_op (">=" +:+ s) (Lex.skip_ws s).
Proof.
  split; [selected 11 | split; [selected 12 | split; [selected 17 |
  split; [selected 18 | split; [selected 20 | selected 22]]]]].
Qed.

End RuleTable.

(** ** The command line *)

Section CommandLine.

Import Cli.

Lemma step_args (st : gmap string OptionValue * list string) (arg : string) :
  (step st arg).2 = st.2 ++ List.filter (fun a => negb (is_option a)) [arg].
Proof.
  destruct st as [o args]. unfold step. cbn [List.filter snd].
  destruct (negb (is_option arg)); cbn [snd]; [reflexivity | by rewrite app_nil_r].
Qed.

Lemma fold_step_args (argv : list string) (st : gmap string OptionValue * list string) :
  (fold_left step argv st).2 = st.2 ++ List.filter (fun a => negb (is_option a)) argv.
Proof.
  revert st. induction argv as [| arg argv IH]; intros st.
  - cbn [fold_left List.filter]. by rewrite app_nil_r.
  - cbn [fold_left]. rewrite IH, step_args.
    change (arg :: argv) with ([arg] ++ argv). by rewrite List.filter_app, app_assoc.
Qed.

(** X26. The positional arguments of the command line are exactly the
    arguments that do not start with a dash, in their order: an option
    never takes the argument that follows it. *)
Theorem positional_arguments (argv : list string) :
  (parse_argv argv).2 = List.filter (fun a => negb (is_option a)) argv.
Proof. unfold parse_argv. by rewrite fold_step_args. Qed.

Lemma split_eq_key (k rest : string) :
  no_eq k = true ->
  split_eq (k +:+ String "=" rest) = k :: split_eq rest.
Proof.
  intros Hk. induction k as [| c k IH]; [reflexivity |].
  cbn [no_eq] in Hk. apply andb_true_iff in Hk as [Hc Hk]. apply negb_true_iff in Hc.
  change (String c k +:+ String "=" rest) with (String c (k +:+ String "=" rest)).
  cbn [split_eq]. by rewrite Hc, (IH Hk).
Qed.

Lemma split_eq_whole (k : string) : no_eq k = true -> split_eq k = [k].
Proof.
  intros Hk. induction k as [| c k IH]; [reflexivity |].
  cbn [no_eq] in Hk. apply andb_true_iff in Hk as [Hc Hk]. apply negb_true_iff in Hc.
  cbn [split_eq]. by rewrite Hc, (IH Hk).
Qed.

Lemma parse_argv_last (argv : list string) (arg : string) :
  parse_argv (argv ++ [arg]) = step (parse_argv argv) arg.
Proof. unfold parse_argv. by rewrite fold_left_app. Qed.

(** X27. The last argument decides an option: [-k] sets the option [k] to
    true and [-k=v] sets it to the text [v], whatever came before; the
    value stops at a second [=], what follows it is dropped. The key
    has no [=] and is not [__proto__]. *)
Theorem option_value (argv : list string) (k v : string) :
  no_eq k = true -> no_eq v = true -> k <> "__proto__" ->
  (parse_argv (argv ++ [String "-" k])).1 !! k = Some OTrue
  /\ (parse_argv (argv ++ [String "-" (k +:+ String "=" v)])).1 !! k = Some (OText v)
  /\ (forall w, (parse_argv (argv ++ [String "-" (k +:+ String "=" (v +:+ String "=" w))])).1
                !! k = Some (OText v)).
Proof.
  intros Hk Hv Hproto. apply String.eqb_neq in Hproto.
  assert (Hset : forall o value, assign o k value !! k = Some value).
  { intros o value. unfold assign. rewrite Hproto. apply lookup_insert_eq. }
  split; [| split].
  - rewrite parse_argv_last. destruct (parse_argv argv) as [o args].
    unfold step. cbn [is_option Ascii.eqb Bool.eqb negb slice_1].
    rewrite (split_eq_whole _ Hk). cbn [lookup list_lookup default fst]. apply Hset.
  - rewrite parse_argv_last. destruct (parse_argv argv) as [o args].
    unfold step. cbn [is_option Ascii.eqb Bool.eqb negb slice_1].
    rewrite (split_eq_key _ _ Hk), (split_eq_whole _ Hv).
    cbn [lookup list_lookup default fst]. apply Hset.
  - intros w. rewrite parse_argv_last. destruct (parse_argv argv) as [o args].
    unfold step. cbn [is_option Ascii.eqb Bool.eqb negb slice_1].
    rewrite (split_eq_key _ _ Hk), (split_eq_key _ _ Hv).
    cbn [lookup list_lookup default fst]. apply Hset.
Qed.

End CommandLine.

(** ** The demo page *)

Section Debouncing.

Import Debounce.

(** X28. The function [debounce] returns never delays: the variable [timer]
    is only assigned after the test that leaves when it is unset, so it
    stays unset, every call runs the function at once, and no timer is
    ever set or cleared. *)
Theorem debounce_never_waits (handles : list nat) :
  calls handles None = (None, replicate (length handles) Ran).
Proof.
  induction handles as [| fresh handles IH]; [reflexivity |].
  cbn [calls call length replicate]. by rewrite IH.
Qed.

End Debouncing.

(** ** Worked instances: the evaluator *)

Section EvaluationInstances.

Import Examples Stores.

Abbreviation heval := Host.evaluate.
Abbreviation hfree := (no_macro Host.number_to_string Host.object_to_string Host.inherited).

Lemma symbol_resolution_witness :
  scope_chain def_store 7 [7; 6; 0]
  /\ Host.evaluate 1 (VStr "+") 7 def_store = Ok (VRef 1) def_store
  /\ exists e h', Host.evaluate 1 (VStr "x") 7 def_store = Throw e h'
       /\ has_message Host.number_to_string Host.object_to_string Host.inherited
            h' e (undefined_symbol "x").
Proof.
  assert (Hc : scope_chain def_store 7 [7; 6; 0]).
  { apply (chain_up _ 7 6); [reflexivity |].
    apply (chain_up _ 6 0); [reflexivity |].
    apply chain_top. reflexivity. }
  split; [exact Hc |].
  pose proof (symbol_resolution Host.call Host.number_to_string Host.object_to_string
                Host.syntaxTreeToString Host.inherited 0 def_store 7 [7; 6; 0] Hc)
    as (Hres & _ & _).
  split.
  - apply (Hres "+"); [discriminate | discriminate | reflexivity].
  - apply (Hres "x"); [discriminate | discriminate | reflexivity].
Defined.

Lemma eva_of_quote_witness :
  Js.class_of eva_store (VRef 6) = Some (CArray (VStr "eva" :: VRef 5 :: []))
  /\ Js.class_of eva_store (VRef 5) = Some (CArray (VStr "`" :: VNum 7 :: []))
  /\ hfree eva_store 7 "eva" /\ hfree eva_store 7 "`"
  /\ heval 1 (VRef 5) 7 eva_store = Ok (VNum 7) eva_store
  /\ heval 2 (VRef 6) 7 eva_store = heval 1 (VNum 7) 7 eva_store.
Proof.
  do 4 (split; [reflexivity |]).
  apply (eva_of_quote Host.call Host.number_to_string Host.object_to_string
           Host.syntaxTreeToString Host.inherited 0 eva_store (VRef 6) 7 5 "`"
           (VNum 7) [] [] eq_refl eq_refl (or_introl eq_refl) eq_refl eq_refl).
Defined.

Lemma list_of_literals_witness :
  Js.class_of list_store (VRef 5) = Some (CArray (VStr "list" :: [VNum 1; VNum 2]))
  /\ hfree list_store 6 "list"
  /\ heval 2 (VRef 5) 6 list_store = Ok (VRef 7) (list_store ++ [array [VNum 1; VNum 2]]).
Proof.
  do 2 (split; [reflexivity |]).
  exact (list_of_literals Host.call Host.number_to_string Host.object_to_string
           Host.syntaxTreeToString Host.inherited 0 list_store (VRef 5) 6
           [VNum 1; VNum 2] eq_refl eq_refl eq_refl).
Defined.

Lemma list_spread_copies_witness :
  resolves spread_store 8 "xs" (VRef 7)
  /\ heval 3 (VRef 6) 8 spread_store
     = Ok (VRef 9)
          (spread_store ++ [array [VNum 1; VNum 2]; array [VStr "xs"]; array [VRef 7]]).
Proof.
  assert (Hres : resolves spread_store 8 "xs" (VRef 7)).
  { exists [8; 0]. split; [| split; [| reflexivity]].
    - apply (chain_up _ 8 0); [reflexivity |]. apply chain_top. reflexivity.
    - repeat constructor; vm_compute; lia. }
  split; [exact Hres |].
  exact (list_spread_copies Host.call Host.number_to_string Host.object_to_string
           Host.syntaxTreeToString Host.inherited 0 spread_store (VRef 6) 8 5 "xs" 7
           [VNum 1; VNum 2] eq_refl eq_refl eq_refl eq_refl
           ltac:(discriminate) ltac:(discriminate) eq_refl Hres eq_refl eq_refl).
Defined.

Lemma do_form_witness :
  Js.class_of do_store (VRef 5) = Some (CArray (VStr "do" :: [VNum 1; VNum 2]))
  /\ hfree do_store 6 "do"
  /\ heval 2 (VRef 5) 6 do_store
     = heval 1 (VNum 2) 6 (do_store ++ [array [VNum 1]; array [VNum 1]]).
Proof.
  do 2 (split; [reflexivity |]).
  apply (proj2 (do_form Host.call Host.number_to_string Host.object_to_string
                  Host.syntaxTreeToString Host.inherited 0 do_store (VRef 5) 6
                  [VNum 1; VNum 2] eq_refl eq_refl) [VNum 1] (VNum 2) eq_refl);
    [vm_compute; reflexivity | reflexivity].
Defined.


Lemma call_host_function_witness :
  resolves sum_store 6 "+" (VRef 1)
  /\ heval 2 (VRef 5) 6 sum_store
     = Host.call "+" VUndef [VNum 1; VNum 2]
         (sum_store ++ [array [VRef 1; VNum 1; VNum 2]])
  /\ heval 2 (VRef 5) 6 sum_store
     = Ok (VNum 3) (sum_store ++ [array [VRef 1; VNum 1; VNum 2]]).
Proof.
  assert (Hres : resolves sum_store 6 "+" (VRef 1)).
  { exists [6; 0]. split; [| split; [| reflexivity]].
    - apply (chain_up _ 6 0); [reflexivity |]. apply chain_top. reflexivity.
    - repeat constructor; vm_compute; lia. }
  split; [exact Hres |].
  assert (Hstep := call_host_function Host.call Host.number_to_string
                     Host.object_to_string Host.syntaxTreeToString Host.inherited 0
                     sum_store (VRef 5) 6 "+" 1 "+" [VNum 1; VNum 2]
                     eq_refl eq_refl eq_refl ltac:(discriminate) ltac:(discriminate)
                     eq_refl Hres eq_refl eq_refl (fun _ => eq_refl) eq_refl).
  split; [exact Hstep |].
  etransitivity; [exact Hstep |]. vm_compute. reflexivity.
Defined.



Lemma non_callable_head_witness :
  Js.class_of numbers_store (VRef 5) = Some (CArray [VNum 5; VNum 1])
  /\ heval 2 (VRef 5) 6 numbers_store
     = Ok (VNum 5) (numbers_store ++ [array [VNum 5; VNum 1]]).
Proof.
  split; [reflexivity |].
  exact (non_callable_head Host.call Host.number_to_string Host.object_to_string
           Host.syntaxTreeToString Host.inherited 0 numbers_store (VRef 5) 6
           [VNum 5; VNum 1] eq_refl eq_refl eq_refl).
Defined.

Lemma get_binds_method_witness :
  Js.class_of method_store (VRef 7) = Some (CArray [VStr "get"; VStr "o"; VRef 6])
  /\ heval 1 (VStr "o") 9 method_store = Ok (VRef 5) method_store
  /\ heval 1 (VRef 6) 9 method_store = Ok (VStr "m") method_store
  /\ get_prop Host.number_to_string Host.object_to_string Host.inherited method_store
       (VRef 5) (VStr "m") = VRef 1
  /\ heval 2 (VRef 7) 9 method_store
     = Ok (VRef 10) (method_store ++ [mkObj (CFunction (FBound 1 (VRef 5))) ∅])
  /\ call Host.call Host.number_to_string Host.object_to_string Host.syntaxTreeToString
       (heval 1) (VRef 10) VUndef [VNum 1; VNum 2]
       (method_store ++ [mkObj (CFunction (FBound 1 (VRef 5))) ∅])
     = Host.call "+" (VRef 5) [VNum 1; VNum 2]
         (method_store ++ [mkObj (CFunction (FBound 1 (VRef 5))) ∅]).
Proof.
  do 4 (split; [reflexivity |]).
  destruct (get_binds_method Host.call Host.number_to_string Host.object_to_string
              Host.syntaxTreeToString Host.inherited 1 method_store (VRef 7) 9
              (VStr "o") (VRef 6) 5 (VStr "m") 1 method_store method_store
              eq_refl eq_refl eq_refl eq_refl eq_refl eq_refl (or_introl eq_refl)
              eq_refl eq_refl eq_refl) as [Hget Hcall].
  split; [exact Hget |].
  exact (Hcall "+" VUndef [VNum 1; VNum 2] eq_refl).
Defined.

Lemma get_applies_function_witness :
  Js.class_of method_store (VRef 8) = Some (CArray [VStr "get"; VStr "o"; VStr "+"])
  /\ heval 1 (VStr "o") 9 method_store = Ok (VRef 5) method_store
  /\ heval 1 (VStr "+") 9 method_store = Ok (VRef 1) method_store
  /\ heval 2 (VRef 8) 9 method_store = Host.call "+" VUndef [VRef 5] method_store.
Proof.
  do 3 (split; [reflexivity |]).
  exact (get_applies_function Host.call Host.number_to_string Host.object_to_string
           Host.syntaxTreeToString Host.inherited 1 method_store (VRef 8) 9
           (VStr "o") (VStr "+") (VRef 5) 1 "+" method_store method_store
           eq_refl eq_refl eq_refl eq_refl eq_refl eq_refl eq_refl).
Defined.

Lemma get_list_element_witness :
  Js.class_of element_store (VRef 6)
  = Some (CArray [VStr "get"; VStr "xs"; VNum (Num.of_nat 1)])
  /\ Js.class_of element_store (VRef 7)
     = Some (CArray [VStr "get"; VStr "xs"; VNum (Num.of_nat 5)])
  /\ Js.class_of element_store (VRef 5) = Some (CArray [VNum 10; VNum 20])
  /\ heval 2 (VRef 6) 8 element_store = Ok (VNum 20) element_store
  /\ heval 2 (VRef 7) 8 element_store = Ok VUndef element_store.
Proof.
  do 3 (split; [reflexivity |]).
  split.
  - exact (get_list_element Host.call Host.number_to_string Host.object_to_string
             Host.syntaxTreeToString Host.inherited 1 element_store (VRef 6) 8
             (VStr "xs") (VNum (Num.of_nat 1)) 5 [VNum 10; VNum 20] 1
             element_store element_store
             eq_refl eq_refl eq_refl eq_refl eq_refl eq_refl eq_refl eq_refl eq_refl).
  - exact (get_list_element Host.call Host.number_to_string Host.object_to_string
             Host.syntaxTreeToString Host.inherited 1 element_store (VRef 7) 8
             (VStr "xs") (VNum (Num.of_nat 5)) 5 [VNum 10; VNum 20] 5
             element_store element_store
             eq_refl eq_refl eq_refl eq_refl eq_refl eq_refl eq_refl eq_refl eq_refl).
Defined.

Lemma get_checks_root_only_witness :
  Js.class_of chain_store (VRef 8)
  = Some (CArray [VStr "get"; VStr "o"; VRef 6; VRef 7])
  /\ get_prop Host.number_to_string Host.object_to_string Host.inherited chain_store
       (VRef 5) (VStr "n") = VNum 5
  /\ heval 2 (VRef 8) 9 chain_store = Ok VUndef chain_store.
Proof.
  do 2 (split; [reflexivity |]).
  exact (get_checks_root_only Host.call Host.number_to_string Host.object_to_string
           Host.syntaxTreeToString Host.inherited 1 chain_store (VRef 8) 9
           (VStr "o") (VRef 6) (VRef 7) 5 (VStr "n") (VStr "c") 5
           chain_store chain_store chain_store
           eq_refl eq_refl eq_refl eq_refl eq_refl eq_refl (or_introl eq_refl)
           eq_refl eq_refl eq_refl eq_refl (or_introl eq_refl) eq_refl).
Defined.


Lemma obj_of_pairs_witness :
  Js.class_of pairs_store (VRef 7) = Some (CArray (VStr "obj" :: [VRef 5; VRef 6]))
  /\ Forall2 (entry_denotes pairs_store 8) [VRef 5; VRef 6] [("a", VNum 1); ("b", VNum 2)]
  /\ heval 2 (VRef 7) 8 pairs_store
     = Ok (VRef 9) (pairs_store ++ [object (<["b" := VNum 2]> {["a" := VNum 1]})]).
Proof.
  split; [reflexivity |].
  assert (Hall : Forall2 (entry_denotes pairs_store 8) [VRef 5; VRef 6]
                   [("a", VNum 1); ("b", VNum 2)]).
  { constructor; [| constructor; [| constructor]].
    - left. split; [reflexivity |]. split; [reflexivity | discriminate].
    - right. split; [reflexivity |]. split; [| split; discriminate].
      exists [8; 0]. split; [| split; [| reflexivity]].
      + apply (chain_up _ 8 0); [reflexivity |]. apply chain_top. reflexivity.
      + repeat constructor; vm_compute; lia. }
  split; [exact Hall |].
  etransitivity;
    [exact (obj_of_pairs Host.call Host.number_to_string Host.object_to_string
              Host.syntaxTreeToString Host.inherited 0 pairs_store (VRef 7) 8
              [VRef 5; VRef 6] [("a", VNum 1); ("b", VNum 2)] eq_refl eq_refl Hall
              ltac:(repeat constructor; discriminate)) |].
  reflexivity.
Defined.



Lemma macro_expansion_witness :
  (Js.class_of macro_store (VRef 8) = Some (CArray (VStr "macro" :: VStr "+" :: []))
   /\ heval 1 (VStr "+") 6 macro_store = Ok (VRef 1) macro_store
   /\ heval 2 (VRef 8) 6 macro_store
      = Ok (VRef 1)
          (<[1 := mkObj (CFunction (FHost "+")) {["isMacro" := VBool true]}]> macro_store))
  /\ (Js.class_of macro_store (VRef 7) = Some (CArray (VStr "m" :: [VNum 1; VNum 2]))
      /\ Host.call "+" (VRef 6) [VNum 1; VNum 2] macro_store = Ok (VNum 3) macro_store
      /\ heval 2 (VRef 7) 6 macro_store = heval 2 (VNum 3) 6 macro_store).
Proof.
  pose proof (macro_expansion Host.call Host.number_to_string Host.object_to_string
                Host.syntaxTreeToString Host.inherited) as [Hmark Hexpand].
  split.
  - do 2 (split; [reflexivity |]).
    etransitivity;
      [exact (Hmark 1 macro_store (VRef 8) 6 "macro" (VStr "+") [] 1 (FHost "+")
                macro_store eq_refl (or_introl eq_refl) eq_refl eq_refl eq_refl) |].
    reflexivity.
  - do 2 (split; [reflexivity |]).
    exact (Hexpand 0 macro_store (VRef 7) 6 "m" [VNum 1; VNum 2] 5 "+" (VNum 3)
             macro_store eq_refl eq_refl eq_refl eq_refl eq_refl (or_introl eq_refl)).
Defined.

End EvaluationInstances.

(** ** Worked instances: tokens and tools *)

Section ToolInstances.

Local Open Scope string_scope.

Lemma quoted_text_round_trip_witness :
  plain_text "a b" = true
  /\ r_match Rules.single_quoted ("'a b' + 1") = Some " + 1"
  /\ prefix_of Rules.single_quoted "'a b'" = Some (PRet (EList [EStr "`"; EStr "a b"])).
Proof.
  split; [reflexivity |].
  destruct (quoted_text_round_trip "a b" " + 1" eq_refl) as (Hm & Hp & _).
  split; [exact Hm | exact Hp].
Defined.

Lemma number_reads_numeral_witness :
  ends_number " + x" = true
  /\ r_match Rules.number ("42 + x") = Some "+ x"
  /\ prefix_of Rules.number "42" = Some (PRet (ENum (Num.of_nat 42))).
Proof.
  split; [reflexivity |].
  exact (number_reads_numeral 42 " + x" eq_refl).
Defined.

Lemma single_quoted_inner_quote_witness :
  plain_text "it" = true /\ plain_text "s" = true
  /\ r_match Rules.single_quoted ("'it\'s' ") = Some " "
  /\ prefix_of Rules.single_quoted "'it\'s'" = Some PFail.
Proof.
  split; [reflexivity |]. split; [reflexivity |].
  destruct (single_quoted_inner_quote "it" "s" " " eq_refl eq_refl) as (Hm & Hp & _).
  split; [exact Hm | exact Hp].
Defined.

Lemma minus_prefix_is_a_number_witness :
  exists k,
    prefix_of Rules.minus "-" = Some (PNext 70 k)
    /\ k (EStr "x") = PRet (ENum Num.nan)
    /\ k (EList [EStr "+"; ENum 1; ENum 2]) = PRet (ENum Num.nan).
Proof.
  destruct (minus_prefix_is_a_number "-") as (k & Hk & _ & _ & Hname & Hlist).
  exists k. split; [exact Hk |]. split.
  - apply Hname; [reflexivity | discriminate].
  - apply Hlist.
Defined.

Lemma option_value_witness :
  Cli.no_eq "o" = true /\ Cli.no_eq "b" = true
  /\ (Cli.parse_argv ["in.expr"; "-o=a"; "-o=b=c"]).1 !! "o" = Some (Cli.OText "b").
Proof.
  split; [reflexivity |]. split; [reflexivity |].
  destruct (option_value ["in.expr"; "-o=a"] "o" "b" eq_refl eq_refl
              ltac:(discriminate)) as (_ & _ & H).
  exact (H "c").
Defined.

End ToolInstances.
